(** * use-stream-audio: a shallow embedding of the streaming hook

    The development follows [src/useStreamAudio.ts], [src/useWebAudio.ts]
    and [src/useHTML5Audio.ts].

    - JavaScript numbers that carry time (clock readings, durations,
      positions) are kept abstract behind the class [JsNumber]; every general
      theorem holds for whatever arithmetic interprets it.  The instance over
      [Q] is used for the concrete scenarios.
    - A [Float32Array] view over an [ArrayBuffer] is the list of its 4-byte
      groups: a sample is the bit pattern of a 32-bit float.
    - The hook's React state, the refs of the two sub-hooks and the two
      playback engines are one record, [hook]; every callback of the source
      is a function on it.  Code that can raise runs in the [outcome] monad.
    - What React and the browser do between two awaits of the ingestion loop
      is a list of [event]s. *)

From Stdlib Require Import List Arith PeanoNat Lia Bool ZArith QArith.
From Stdlib.Strings Require Import Byte.
Import ListNotations.

Close Scope Q_scope.
Open Scope nat_scope.

Set Implicit Arguments.

(** ** Numbers *)

Class JsNumber (num : Type) : Type := {
  num_zero : num;
  num_of_Z : Z -> num;
  num_add : num -> num -> num;
  num_sub : num -> num -> num;
  num_div : num -> num -> num;
  num_max : num -> num -> num
}.

(** Exact rationals, for the concrete sessions only: the statements about
    every session are over an arbitrary [JsNumber], since the program
    computes in IEEE doubles and rounds. *)
#[export] Instance Q_JsNumber : JsNumber Q := {
  num_zero := 0%Q;
  num_of_Z := inject_Z;
  num_add := Qplus;
  num_sub := Qminus;
  num_div := Qdiv;
  num_max := fun a b => if Qle_bool a b then b else a
}.

(** ** Typed arrays *)

(** One element of a [Float32Array]: the four bytes it is stored in, in
    buffer order. *)
Record sample : Type := Sample { s0 : byte; s1 : byte; s2 : byte; s3 : byte }.

Definition sample_bytes (s : sample) : list byte := [s0 s; s1 s; s2 s; s3 s].

(** [new Float32Array(buf, 0, count)]: [count] elements read from offset 0.
    The constructor raises a RangeError when [buf] is shorter than
    [4 * count]; the only call site passes [count = length buf / 4]
    ([float32_view_length] shows the view is complete there). *)
Fixpoint float32_view (buf : list byte) (count : nat) {struct count}
  : list sample :=
  match count with
  | O => []
  | S k =>
      match buf with
      | b0 :: b1 :: b2 :: b3 :: rest => Sample b0 b1 b2 b3 :: float32_view rest k
      | _ => []
      end
  end.

(** [new Uint8Array(buf, offset, len)]. *)
Definition uint8_view (buf : list byte) (offset len : nat) : list byte :=
  firstn len (skipn offset buf).

(** Bytes held by a list of sample buffers, in order. *)
Definition buffer_bytes (buffer : list sample) : list byte :=
  flat_map sample_bytes buffer.

(** [typed.set(src, offset)] on a typed array [typed]; it raises a
    RangeError when [src] does not fit, which no call site lets happen. *)
Definition typed_set {A : Type} (src : list A) (offset : nat) (typed : list A)
  : list A :=
  firstn offset typed ++ src ++ skipn (offset + length src) typed.

(** ** The decode step of the ingestion loop (useStreamAudio.ts, 161-173)

    [data] is a fresh array that receives [leftover] and then the incoming
    chunk; the result is the sample buffer and the new leftover. *)
Definition decode (leftover value : list byte) : list sample * list byte :=
  let data :=
    typed_set value (length leftover)
      (typed_set leftover 0 (repeat x00 (length leftover + length value))) in
  let len := (length data / 4) * 4 in
  let remainder := length data mod 4 in
  let buffer := float32_view data (len / 4) in
  (buffer, uint8_view data len remainder).

(** ** Exceptions *)

Inductive js_error : Type := TypeError | NotSupportedError | InvalidStateError.

Inductive outcome (A : Type) : Type :=
| Returned (a : A)
| Thrown (e : js_error).

Arguments Thrown {A} e.

Definition bind {A B : Type} (m : outcome A) (k : A -> outcome B) : outcome B :=
  match m with
  | Returned a => k a
  | Thrown e => Thrown e
  end.

Notation "x <- m ;; k" := (bind m (fun x => k))
  (at level 61, m at next level, right associativity).

(** [try { body } catch (e) { handler }]. *)
Definition try_catch {A : Type} (body : outcome A) (handler : js_error -> outcome A)
  : outcome A :=
  match body with
  | Returned a => Returned a
  | Thrown e => handler e
  end.

Section Hook.

Context {num : Type} {N : JsNumber num}.

(** ** The two engines and the hook state *)

(** An [AudioBuffer] with one channel. *)
Record audio_buffer : Type := {
  ab_data : list sample;
  ab_sampleRate : num
}.

(** [audioBuffer.duration]. *)
Definition ab_duration (b : audio_buffer) : num :=
  num_div (num_of_Z (Z.of_nat (length (ab_data b)))) (ab_sampleRate b).

(** An [AudioBufferSourceNode] after [start(when)]; [node_ended] tells
    whether it has played to its end. *)
Record source_node : Type := {
  node_buffer : audio_buffer;
  node_start : num;
  node_ended : bool
}.

Record audio_context : Type := {
  ctx_currentTime : num;
  ctx_sampleRate : num;
  ctx_suspended : bool
}.

(** The refs of useWebAudio. *)
Record web_audio : Type := {
  audioContext : option audio_context;
  originalBuffer : option audio_buffer;
  activeSources : list source_node;
  isAudioPlaying : bool
}.

(** The [HTMLAudioElement]: its position, whether it is paused, the resource
    its [src] names, and the listeners useHTML5Audio registers on it. *)
Record audio_element : Type := {
  el_currentTime : num;
  el_paused : bool;
  el_src : option audio_buffer;
  el_canplay_once : bool;
  el_ended_listener : bool
}.

(** Calls that leave the hook: the caller's callbacks (taken as given and
    as not raising) and the WAV encoder. *)
Inductive external_call : Type :=
| OnPlayingChange (playing : bool)
| OnAudioReady
| OnEnded
| AudioBufferToWav (complete : audio_buffer).

(** useStreamAudio: React state, the two sub-hooks, the options, and the
    calls made so far. *)
Record hook : Type := {
  isPlaying : bool;
  isAudioReady : bool;
  isAudioTransitioned : bool;
  currentTime : num;
  duration : num;
  webAudio : web_audio;
  audioRef : option audio_element;
  enableTransition : bool;
  calls : list external_call
}.

(** Field updates. *)
Definition setIsPlaying (v : bool) (h : hook) : hook :=
  {| isPlaying := v; isAudioReady := isAudioReady h;
     isAudioTransitioned := isAudioTransitioned h; currentTime := currentTime h;
     duration := duration h; webAudio := webAudio h; audioRef := audioRef h;
     enableTransition := enableTransition h; calls := calls h |}.

Definition setIsAudioReady (v : bool) (h : hook) : hook :=
  {| isPlaying := isPlaying h; isAudioReady := v;
     isAudioTransitioned := isAudioTransitioned h; currentTime := currentTime h;
     duration := duration h; webAudio := webAudio h; audioRef := audioRef h;
     enableTransition := enableTransition h; calls := calls h |}.

Definition setIsAudioTransitioned (v : bool) (h : hook) : hook :=
  {| isPlaying := isPlaying h; isAudioReady := isAudioReady h;
     isAudioTransitioned := v; currentTime := currentTime h;
     duration := duration h; webAudio := webAudio h; audioRef := audioRef h;
     enableTransition := enableTransition h; calls := calls h |}.

Definition setCurrentTime (v : num) (h : hook) : hook :=
  {| isPlaying := isPlaying h; isAudioReady := isAudioReady h;
     isAudioTransitioned := isAudioTransitioned h; currentTime := v;
     duration := duration h; webAudio := webAudio h; audioRef := audioRef h;
     enableTransition := enableTransition h; calls := calls h |}.

Definition setDuration (v : num) (h : hook) : hook :=
  {| isPlaying := isPlaying h; isAudioReady := isAudioReady h;
     isAudioTransitioned := isAudioTransitioned h; currentTime := currentTime h;
     duration := v; webAudio := webAudio h; audioRef := audioRef h;
     enableTransition := enableTransition h; calls := calls h |}.

Definition set_webAudio (v : web_audio) (h : hook) : hook :=
  {| isPlaying := isPlaying h; isAudioReady := isAudioReady h;
     isAudioTransitioned := isAudioTransitioned h; currentTime := currentTime h;
     duration := duration h; webAudio := v; audioRef := audioRef h;
     enableTransition := enableTransition h; calls := calls h |}.

Definition set_audioRef (v : option audio_element) (h : hook) : hook :=
  {| isPlaying := isPlaying h; isAudioReady := isAudioReady h;
     isAudioTransitioned := isAudioTransitioned h; currentTime := currentTime h;
     duration := duration h; webAudio := webAudio h; audioRef := v;
     enableTransition := enableTransition h; calls := calls h |}.

Definition call (c : external_call) (h : hook) : hook :=
  {| isPlaying := isPlaying h; isAudioReady := isAudioReady h;
     isAudioTransitioned := isAudioTransitioned h; currentTime := currentTime h;
     duration := duration h; webAudio := webAudio h; audioRef := audioRef h;
     enableTransition := enableTransition h; calls := calls h ++ [c] |}.

Definition set_audioContext (v : option audio_context) (w : web_audio) : web_audio :=
  {| audioContext := v; originalBuffer := originalBuffer w;
     activeSources := activeSources w; isAudioPlaying := isAudioPlaying w |}.

Definition set_originalBuffer (v : option audio_buffer) (w : web_audio) : web_audio :=
  {| audioContext := audioContext w; originalBuffer := v;
     activeSources := activeSources w; isAudioPlaying := isAudioPlaying w |}.

Definition set_activeSources (v : list source_node) (w : web_audio) : web_audio :=
  {| audioContext := audioContext w; originalBuffer := originalBuffer w;
     activeSources := v; isAudioPlaying := isAudioPlaying w |}.

Definition set_isAudioPlaying (v : bool) (w : web_audio) : web_audio :=
  {| audioContext := audioContext w; originalBuffer := originalBuffer w;
     activeSources := activeSources w; isAudioPlaying := v |}.

Definition set_ctx_currentTime (v : num) (c : audio_context) : audio_context :=
  {| ctx_currentTime := v; ctx_sampleRate := ctx_sampleRate c;
     ctx_suspended := ctx_suspended c |}.

Definition set_ctx_suspended (v : bool) (c : audio_context) : audio_context :=
  {| ctx_currentTime := ctx_currentTime c; ctx_sampleRate := ctx_sampleRate c;
     ctx_suspended := v |}.

Definition set_el_currentTime (v : num) (e : audio_element) : audio_element :=
  {| el_currentTime := v; el_paused := el_paused e; el_src := el_src e;
     el_canplay_once := el_canplay_once e;
     el_ended_listener := el_ended_listener e |}.

Definition set_el_paused (v : bool) (e : audio_element) : audio_element :=
  {| el_currentTime := el_currentTime e; el_paused := v; el_src := el_src e;
     el_canplay_once := el_canplay_once e;
     el_ended_listener := el_ended_listener e |}.

Definition set_el_src (v : option audio_buffer) (e : audio_element) : audio_element :=
  {| el_currentTime := el_currentTime e; el_paused := el_paused e; el_src := v;
     el_canplay_once := el_canplay_once e;
     el_ended_listener := el_ended_listener e |}.

Definition set_el_listeners (canplay ended : bool) (e : audio_element)
  : audio_element :=
  {| el_currentTime := el_currentTime e; el_paused := el_paused e;
     el_src := el_src e; el_canplay_once := canplay;
     el_ended_listener := ended |}.

(** [updatePlayingState] (useStreamAudio.ts, 74-77); it is also the
    [onPlayingChange] both sub-hooks are given. *)
Definition updatePlayingState (playing : bool) (h : hook) : hook :=
  call (OnPlayingChange playing) (setIsPlaying playing h).

(** ** useWebAudio *)

(** [src.stop()] on a node that already played to its end is refused with
    an InvalidStateError by engines that follow the old behaviour; this is
    the error the source catches. *)
Definition source_stop (src : source_node) : outcome unit :=
  if node_ended src then Thrown InvalidStateError else Returned tt.

Definition source_disconnect (src : source_node) : outcome unit := Returned tt.

(** The [for] loop of [stopStream] with its try/catch. *)
Fixpoint stop_sources (srcs : list source_node) : outcome unit :=
  match srcs with
  | [] => Returned tt
  | src :: rest =>
      _ <- try_catch (_ <- source_stop src ;; source_disconnect src)
                     (fun _ignored => Returned tt) ;;
      stop_sources rest
  end.

Definition stopStream (h : hook) : outcome hook :=
  let h1 := set_webAudio (set_isAudioPlaying false (webAudio h)) h in
  _ <- stop_sources (activeSources (webAudio h1)) ;;
  let h2 := set_webAudio (set_activeSources [] (webAudio h1)) h1 in
  Returned (updatePlayingState false h2).

Definition pauseStream (h : hook) : hook :=
  let w := webAudio h in
  let h1 :=
    match audioContext w with
    | Some ctx => set_webAudio (set_audioContext (Some (set_ctx_suspended true ctx)) w) h
    | None => h
    end in
  updatePlayingState false h1.

Definition playStream (h : hook) : hook :=
  let w := webAudio h in
  match audioContext w with
  | Some ctx =>
      updatePlayingState true
        (set_webAudio (set_audioContext (Some (set_ctx_suspended false ctx)) w) h)
  | None => h
  end.

Definition webAudio_getCurrentTime (h : hook) : num :=
  match audioContext (webAudio h) with
  | Some ctx => ctx_currentTime ctx
  | None => num_zero
  end.

Definition webAudio_cleanup (h : hook) : outcome hook :=
  stopStream (set_webAudio (set_audioContext None (webAudio h)) h).

Definition webAudio_resetState (h : hook) : outcome hook :=
  h1 <- stopStream h ;;
  Returned (set_webAudio (set_originalBuffer None (webAudio h1)) h1).

(** ** useHTML5Audio *)

Definition stopAudio (h : hook) : hook :=
  match audioRef h with
  | None => h
  | Some el =>
      updatePlayingState false
        (set_audioRef (Some (set_el_currentTime num_zero (set_el_paused true el))) h)
  end.

Definition pauseAudio (h : hook) : hook :=
  let h1 :=
    match audioRef h with
    | Some el => set_audioRef (Some (set_el_paused true el)) h
    | None => h
    end in
  updatePlayingState false h1.

Definition playAudio (h : hook) : hook :=
  let h1 :=
    match audioRef h with
    | Some el => set_audioRef (Some (set_el_paused false el)) h
    | None => h
    end in
  updatePlayingState true h1.

Definition rewindAudio (seconds : num) (wasPlaying : bool) (h : hook) : hook :=
  match audioRef h with
  | None => h
  | Some el =>
      let h1 :=
        set_audioRef
          (Some (set_el_currentTime
                   (num_max num_zero (num_sub (el_currentTime el) seconds)) el)) h in
      if wasPlaying then playAudio h1 else h1
  end.

(** The two listeners are [onCanPlay = setIsAudioReady(true)], once, and
    [onEnded = stop(); onEnded?.()]; see [CanPlay] and [EndedFires]. *)
Definition setupAudioListeners (h : hook) : hook :=
  match audioRef h with
  | None => h
  | Some el => set_audioRef (Some (set_el_listeners true true el)) h
  end.

Definition setAudioSource (url : audio_buffer) (h : hook) : hook :=
  match audioRef h with
  | None => h
  | Some el => set_audioRef (Some (set_el_src (Some url) el)) h
  end.

Definition html5Audio_setCurrentTime (time : num) (h : hook) : hook :=
  match audioRef h with
  | None => h
  | Some el => set_audioRef (Some (set_el_currentTime time el)) h
  end.

Definition html5Audio_getCurrentTime (h : hook) : num :=
  match audioRef h with
  | Some el => el_currentTime el
  | None => num_zero
  end.

Definition html5Audio_cleanup (h : hook) : hook := set_audioRef None h.

(** ** useStreamAudio: the callbacks *)

(** [stop] as a closure: [transitioned] is the value of
    [isAudioTransitioned] in the render that created it. *)
Definition stop_closure (transitioned : bool) (h : hook) : outcome hook :=
  h1 <- (if transitioned then Returned (stopAudio h) else stopStream h) ;;
  Returned (updatePlayingState false h1).

Definition stop (h : hook) : outcome hook :=
  stop_closure (isAudioTransitioned h) h.

Definition play (h : hook) : hook :=
  if isAudioTransitioned h then playAudio h else playStream h.

Definition pause (h : hook) : hook :=
  if isAudioTransitioned h then pauseAudio h else pauseStream h.

(** [rewind] as a closure: [transitioned] and [playing] are the values of
    [isAudioTransitioned] and [isPlaying] in the render that created it
    (useStreamAudio.ts, 288-292).  A setter changes what the next render
    will see, not these two constants. *)
Definition rewind_closure (transitioned playing : bool) (seconds : num)
  (h : hook) : hook :=
  if transitioned then rewindAudio seconds playing h else h.

(** [rewind] as built by a render that has seen the state [h] is in: the
    call of a caller whose closures are up to date. *)
Definition rewind (seconds : num) (h : hook) : hook :=
  rewind_closure (isAudioTransitioned h) (isPlaying h) seconds h.

Definition cleanup (h : hook) : outcome hook :=
  webAudio_cleanup (html5Audio_cleanup h).

Definition resetState (h : hook) : outcome hook :=
  h1 <- stop h ;;
  webAudio_resetState (setIsAudioTransitioned false (setIsAudioReady false h1)).

(** The transition effect (useStreamAudio.ts, 107-123).  [isAudioReady],
    [currentTime] and [isPlaying] are the values of the render the effect
    belongs to, that is, of [h]. *)
Definition transition_effect (h : hook) : outcome hook :=
  if negb (enableTransition h) then Returned h
  else if isAudioReady h then
    let currentPosition := currentTime h in
    let h1 := html5Audio_setCurrentTime currentPosition h in
    let h2 := setIsAudioTransitioned true h1 in
    let h3 := call OnAudioReady h2 in
    if isPlaying h then
      h4 <- stopStream h3 ;;
      Returned (playAudio h4)
    else Returned h3
  else Returned h.

(** The interval callback of the time effect (useStreamAudio.ts, 93-104),
    for an interval set up by a render that has seen the state [h] is in:
    the effect sets the interval up only when its render has [isPlaying],
    and the callback reads the [isAudioTransitioned] of that render. *)
Definition time_tick (h : hook) : hook :=
  if isPlaying h then
    setCurrentTime
      (if isAudioTransitioned h then html5Audio_getCurrentTime h
       else webAudio_getCurrentTime h) h
  else h.

(** The synchronous part of [streamAudio], up to its first await
    (useStreamAudio.ts, 144-146). *)
Definition streamAudio_begin (h : hook) : outcome hook :=
  h1 <- resetState h ;;
  Returned (setCurrentTime num_zero
              (set_webAudio (set_isAudioPlaying true (webAudio h1)) h1)).

(** ** What happens around the hook

    Between two steps of the code the caller may call the hook, a listener
    or a timer may fire, time passes, and React may commit a render.

    A commit runs the transition effect: its dependency list
    (useStreamAudio.ts, 123) holds [isAudioReady], [enableTransition],
    [currentTime], [isPlaying], [onAudioReady] and the objects [html5Audio]
    and [webAudio], which both sub-hooks build anew in every render
    (index.ts, 131-148 and 271-285), so no commit leaves it unchanged.  A
    render, and so a commit, follows every change of the hook's React
    state. *)

Inductive event : Type :=
| CallStop
| CallPlay
| CallPause
| CallRewind (seconds : num)
| CallStreamAudio           (* another call of streamAudio, up to its first await *)
| Commit                    (* React commits a render: the transition effect runs *)
| TimerTick                 (* the interval of the time effect fires *)
| CanPlay                   (* the element reports canplay *)
| EndedFires (transitioned : bool)
                            (* an ended listener runs; its [stop] closed over [transitioned] *)
| SourceEnds (i : nat)      (* the i-th active source plays to its end *)
| Elapse (dt : num)         (* time passes on both engines *)
| Unmount.

Fixpoint mark_ended (i : nat) (srcs : list source_node) : list source_node :=
  match srcs, i with
  | [], _ => []
  | src :: rest, O =>
      {| node_buffer := node_buffer src; node_start := node_start src;
         node_ended := true |} :: rest
  | src :: rest, S j => src :: mark_ended j rest
  end.

Definition elapse (dt : num) (h : hook) : hook :=
  let w := webAudio h in
  let h1 :=
    match audioContext w with
    | Some ctx =>
        if ctx_suspended ctx then h
        else set_webAudio
               (set_audioContext
                  (Some (set_ctx_currentTime (num_add (ctx_currentTime ctx) dt) ctx)) w) h
    | None => h
    end in
  match audioRef h1 with
  | Some el =>
      if el_paused el then h1
      else set_audioRef
             (Some (set_el_currentTime (num_add (el_currentTime el) dt) el)) h1
  | None => h1
  end.

(** The canplay listener, registered with [once: true]. *)
Definition canplay (h : hook) : hook :=
  match audioRef h with
  | Some el =>
      if el_canplay_once el then
        setIsAudioReady true
          (set_audioRef (Some (set_el_listeners false (el_ended_listener el) el)) h)
      else h
  | None => h
  end.

Definition apply_event (e : event) (h : hook) : outcome hook :=
  match e with
  | CallStop => stop h
  | CallPlay => Returned (play h)
  | CallPause => Returned (pause h)
  | CallRewind seconds => Returned (rewind seconds h)
  | CallStreamAudio => streamAudio_begin h
  | Commit => transition_effect h
  | TimerTick => Returned (time_tick h)
  | CanPlay => Returned (canplay h)
  | EndedFires transitioned =>
      h1 <- stop_closure transitioned h ;;
      Returned (call OnEnded h1)
  | SourceEnds i =>
      Returned (set_webAudio
                  (set_activeSources (mark_ended i (activeSources (webAudio h)))
                                     (webAudio h)) h)
  | Elapse dt => Returned (elapse dt h)
  | Unmount => cleanup h
  end.

Fixpoint run_events (evs : list event) (h : hook) : outcome hook :=
  match evs with
  | [] => Returned h
  | e :: rest => h1 <- apply_event e h ;; run_events rest h1
  end.

(** The hook as the ingestion loop finds it after an await during which
    [evs] happened.  No handler raises ([run_events_returns]). *)
Definition await (evs : list event) (h : hook) : hook :=
  match run_events evs h with
  | Returned h1 => h1
  | Thrown _ => h
  end.

(** ** streamAudio: the ingestion loop *)

(** One successful [reader.read()]: the chunk and what happened while the
    loop was waiting for it. *)
Record delivery : Type := { during : list event; value : list byte }.

(** A finite stream: its chunks, and what happens while the loop waits for
    the read that reports [done].  A read that fails is not modelled. *)
Record stream : Type := { deliveries : list delivery; closing : list event }.

(** The local variables of [streamAudio].  [scheduled] and [ingested] are
    ghost: the arguments of every [createAndScheduleAudioSource] call, in
    order, and the number of loop iterations. *)
Record ingestion : Type := {
  nextStartTime : num;
  totalDuration : num;
  allBuffers : list (list sample);
  leftover : list byte;
  source : option source_node;
  scheduled : list (num * audio_buffer);
  ingested : nat
}.

Definition silence : sample := Sample x00 x00 x00 x00.

(** [audioContext.createBuffer(1, length, sampleRate)]; a length of zero is
    refused with a NotSupportedError. *)
Definition createBuffer (ctx : audio_context) (len : nat) (sampleRate : num)
  : outcome audio_buffer :=
  if len =? 0 then Thrown NotSupportedError
  else Returned {| ab_data := repeat silence len; ab_sampleRate := sampleRate |}.

(** [audioBuffer.copyToChannel(src, 0)]: as many frames as both hold. *)
Definition copyToChannel (src : list sample) (b : audio_buffer) : audio_buffer :=
  {| ab_data := firstn (length (ab_data b)) src ++ skipn (length src) (ab_data b);
     ab_sampleRate := ab_sampleRate b |}.

Definition createAndScheduleAudioSource
  (audioBuffer : audio_buffer) (startTime : num) (h : hook) : source_node * hook :=
  let src := {| node_buffer := audioBuffer; node_start := startTime;
                node_ended := false |} in
  (src, set_webAudio
          (set_activeSources (activeSources (webAudio h) ++ [src]) (webAudio h)) h).

(** The body of the loop up to the next read (useStreamAudio.ts, 161-196). *)
Definition ingest_chunk (ctx : audio_context) (chunk : list byte)
  (st : ingestion) (h : hook) : outcome (ingestion * hook) :=
  let (buffer, rest) := decode (leftover st) chunk in
  if length buffer =? 0 then
    Returned ({| nextStartTime := nextStartTime st; totalDuration := totalDuration st;
                 allBuffers := allBuffers st; leftover := rest; source := source st;
                 scheduled := scheduled st; ingested := S (ingested st) |}, h)
  else
    created <- createBuffer ctx (length buffer) (ctx_sampleRate ctx) ;;
    let audioBuffer := copyToChannel buffer created in
    let (src, h1) := createAndScheduleAudioSource audioBuffer (nextStartTime st) h in
    Returned ({| nextStartTime := num_add (nextStartTime st) (ab_duration audioBuffer);
                 totalDuration := num_add (totalDuration st) (ab_duration audioBuffer);
                 allBuffers := allBuffers st ++ [buffer]; leftover := rest;
                 source := Some src;
                 scheduled := scheduled st ++ [(nextStartTime st, audioBuffer)];
                 ingested := S (ingested st) |}, h1).

(** [allBuffers.reduce((acc, buf) => acc + buf.length, 0)]. *)
Definition totalLength (bufs : list (list sample)) : nat :=
  fold_left (fun acc buf => acc + length buf) bufs 0.

(** The [for] loop that fills [completeBuffer]. *)
Fixpoint fill (bufs : list (list sample)) (offset : nat) (completeBuffer : list sample)
  : list sample :=
  match bufs with
  | [] => completeBuffer
  | buf :: rest => fill rest (offset + length buf) (typed_set buf offset completeBuffer)
  end.

(** The branch taken when the read reports [done] and the transition is
    enabled (useStreamAudio.ts, 200-248). *)
Definition finalize (st : ingestion) (h : hook) : outcome hook :=
  let completeBuffer :=
    fill (allBuffers st) 0 (repeat silence (totalLength (allBuffers st))) in
  match audioContext (webAudio h) with
  | None => Thrown TypeError
  | Some ctx =>
      created <- createBuffer ctx (length completeBuffer) (ctx_sampleRate ctx) ;;
      let complete := copyToChannel completeBuffer created in
      let h1 := setDuration (ab_duration complete) h in
      let h2 := call (AudioBufferToWav complete) h1 in
      let h3 :=
        match audioRef h2 with
        | Some _ => setupAudioListeners (setAudioSource complete h2)
        | None => h2
        end in
      Returned (set_webAudio (set_originalBuffer (Some complete) (webAudio h3)) h3)
  end.

(** How a call of [streamAudio] ends: its locals, the hook, and the
    exception it was rejected with, if any. *)
Record run : Type := {
  locals : ingestion;
  final : hook;
  raised : option js_error
}.

Definition settled (st : ingestion) (h : hook) : run :=
  {| locals := st; final := h; raised := None |}.

Definition rejected (e : js_error) (st : ingestion) (h : hook) : run :=
  {| locals := st; final := h; raised := Some e |}.

(** What the loop does once the read reports [done] (useStreamAudio.ts,
    200-259); without the transition only an ended listener is registered. *)
Definition on_done (st : ingestion) (h : hook) : run :=
  if enableTransition h then
    match finalize st h with
    | Returned h1 => settled st h1
    | Thrown e => rejected e st h
    end
  else settled st h.

(** The [while] loop.  [ds] starts with the chunk the last read returned and
    [h] is the hook after that read. *)
Fixpoint ingest (ds : list delivery) (closing_events : list event)
  (st : ingestion) (h : hook) : run :=
  match ds with
  | [] => settled st h
  | d :: rest =>
      match audioContext (webAudio h), isAudioPlaying (webAudio h) with
      | Some ctx, true =>
          match ingest_chunk ctx (value d) st h with
          | Thrown e => rejected e st h
          | Returned (st1, h1) =>
              match rest with
              | next :: _ => ingest rest closing_events st1 (await (during next) h1)
              | [] => on_done st1 (await closing_events h1)
              end
          end
      | _, _ => settled st h
      end
  end.

(** The events of the first await. *)
Definition first_await (s : stream) : list event :=
  match deliveries s with
  | d :: _ => during d
  | [] => closing s
  end.

Definition streamAudio (s : stream) (h : hook) : run :=
  match streamAudio_begin h with
  | Thrown e =>
      rejected e {| nextStartTime := num_zero; totalDuration := num_zero;
                    allBuffers := []; leftover := []; source := None;
                    scheduled := []; ingested := 0 |} h
  | Returned h1 =>
      let st := {| nextStartTime := webAudio_getCurrentTime h1;
                   totalDuration := num_zero; allBuffers := []; leftover := [];
                   source := None; scheduled := []; ingested := 0 |} in
      let h2 := await (first_await s) h1 in
      ingest (deliveries s) (closing s) st (updatePlayingState true h2)
  end.

(** The hook after mount: the AudioContext exists and its clock reads
    [clock]; the audio element has just been created. *)
Definition mounted (sampleRate : num) (transition : bool) (clock : num) : hook :=
  {| isPlaying := false; isAudioReady := false; isAudioTransitioned := false;
     currentTime := num_zero; duration := num_zero;
     webAudio :=
       {| audioContext :=
            Some {| ctx_currentTime := clock; ctx_sampleRate := sampleRate;
                    ctx_suspended := false |};
          originalBuffer := None; activeSources := []; isAudioPlaying := false |};
     audioRef :=
       Some {| el_currentTime := num_zero; el_paused := true; el_src := None;
               el_canplay_once := false; el_ended_listener := false |};
     enableTransition := transition; calls := [] |}.

(** [TransitionState] of the specification, read off the two flags. *)
Inductive transition_state : Type := Streaming | Ready | Transitioned.

Definition transitionState (h : hook) : transition_state :=
  if isAudioTransitioned h then Transitioned
  else if isAudioReady h then Ready
  else Streaming.

(** ** Notions used in the statements *)

(** The bytes a session holds: the decoded samples, then the leftover. *)
Definition session_bytes (st : ingestion) : list byte :=
  buffer_bytes (concat (allBuffers st)) ++ leftover st.

Definition is_wav_call (c : external_call) : bool :=
  match c with
  | AudioBufferToWav _ => true
  | _ => false
  end.

Definition is_ready_call (c : external_call) : bool :=
  match c with
  | OnAudioReady => true
  | _ => false
  end.

(** How many times the accumulated buffer was handed to the encoder. *)
Definition wav_calls (cs : list external_call) : nat :=
  length (filter is_wav_call cs).

(** How many times [onAudioReady] was called. *)
Definition ready_calls (cs : list external_call) : nat :=
  length (filter is_ready_call cs).

Definition durations (sched : list (num * audio_buffer)) : list num :=
  map (fun entry => ab_duration (snd entry)) sched.

(** The clock value reached from [start] after the scheduled buffers. *)
Definition elapsed_after (start : num) (sched : list (num * audio_buffer)) : num :=
  fold_left num_add (durations sched) start.

(** Every buffer starts where the one before it ends. *)
Fixpoint contiguous (start : num) (sched : list (num * audio_buffer)) : Prop :=
  match sched with
  | [] => True
  | (t, b) :: rest => t = start /\ contiguous (num_add start (ab_duration b)) rest
  end.

(** The schedule as a function of the clock reading [start], the sample
    rate and the chunks alone: what a scheduler that looks at nothing else
    would produce. *)
Fixpoint schedule_of (sampleRate start : num) (left : list byte)
  (chunks : list (list byte)) : list (num * audio_buffer) :=
  match chunks with
  | [] => []
  | chunk :: rest =>
      let (buffer, left') := decode left chunk in
      if length buffer =? 0 then schedule_of sampleRate start left' rest
      else
        let audioBuffer := {| ab_data := buffer; ab_sampleRate := sampleRate |} in
        (start, audioBuffer)
          :: schedule_of sampleRate (num_add start (ab_duration audioBuffer)) left' rest
  end.

(** What no event changes: the option, the number of encoder calls, and the
    sample rate of the context as long as there is one. *)
Definition same_setup (h h' : hook) : Prop :=
  enableTransition h' = enableTransition h /\
  wav_calls (calls h') = wav_calls (calls h) /\
  (forall c', audioContext (webAudio h') = Some c' ->
     exists c, audioContext (webAudio h) = Some c /\
               ctx_sampleRate c' = ctx_sampleRate c).

(** Two hooks that differ at most in the record of calls made. *)
Definition same_but_calls (h h' : hook) : Prop :=
  isPlaying h' = isPlaying h /\
  isAudioReady h' = isAudioReady h /\
  isAudioTransitioned h' = isAudioTransitioned h /\
  currentTime h' = currentTime h /\
  duration h' = duration h /\
  webAudio h' = webAudio h /\
  audioRef h' = audioRef h /\
  enableTransition h' = enableTransition h.

(** How many times a run of events takes the hook into [Transitioned]. *)
Fixpoint transitions_into (evs : list event) (h : hook) : nat :=
  match evs with
  | [] => 0
  | e :: rest =>
      match apply_event e h with
      | Returned h' =>
          (if negb (isAudioTransitioned h) && isAudioTransitioned h' then 1 else 0)
          + transitions_into rest h'
      | Thrown _ => 0
      end
  end.

Definition is_new_stream (e : event) : bool :=
  match e with
  | CallStreamAudio => true
  | _ => false
  end.

End Hook.

Arguments audio_buffer : clear implicits.
Arguments source_node : clear implicits.
Arguments audio_context : clear implicits.
Arguments web_audio : clear implicits.
Arguments audio_element : clear implicits.
Arguments external_call : clear implicits.
Arguments hook : clear implicits.
Arguments event : clear implicits.
Arguments delivery : clear implicits.
Arguments stream : clear implicits.
Arguments ingestion : clear implicits.
Arguments run : clear implicits.

(** ** The life of a hook *)

Section Life.

Context {num : Type} {N : JsNumber num}.

(** Events that stop no engine, start no session, do not report the
    buffered resource ready and do not unmount: calls of [play], [pause] and
    [rewind], commits, ticks of the time effect, sources that end, and time
    that passes. *)
Definition leaves_stream_alone (e : event num) : bool :=
  match e with
  | CallStop | CallStreamAudio | CanPlay | EndedFires _ | Unmount => false
  | _ => true
  end.

(** A stream during whose awaits only such events happen. *)
Definition undisturbed (s : stream num) : bool :=
  forallb (fun d => forallb leaves_stream_alone (during d)) (deliveries s)
  && forallb leaves_stream_alone (closing s).

(** What a source node was scheduled with. *)
Definition node_entry (src : source_node num) : num * audio_buffer num :=
  (node_start src, node_buffer src).

(** One thing that happens to a mounted hook: an event, or a whole call of
    [streamAudio] with what happens during its awaits. *)
Inductive action : Type :=
| Happens (e : event num)
| Streams (s : stream num).

Definition perform (a : action) (h : hook num) : hook num :=
  match a with
  | Happens e => await [e] h
  | Streams s => final (streamAudio s h)
  end.

Definition life (acts : list action) (h : hook num) : hook num :=
  fold_left (fun h' a => perform a h') acts h.

(** What the hook keeps true through its whole life: it is transitioned
    only while the ready flag is set and the transition is enabled; a
    stream that is not live holds no source; and a stored accumulated
    buffer is non-empty, has the reported duration, and is the resource of
    the audio element if there is one. *)
Definition consistent (h : hook num) : Prop :=
  (isAudioTransitioned h = true ->
   isAudioReady h = true /\ enableTransition h = true) /\
  (isAudioPlaying (webAudio h) = false -> activeSources (webAudio h) = []) /\
  (forall b,
     originalBuffer (webAudio h) = Some b ->
     ab_data b <> [] /\
     duration h = ab_duration b /\
     forall el, audioRef h = Some el -> el_src el = Some b).

(** What stays true when the transition is disabled: the hook is neither
    ready nor transitioned and no canplay listener is pending. *)
Definition never_ready (h : hook num) : Prop :=
  enableTransition h = false /\
  isAudioReady h = false /\
  isAudioTransitioned h = false /\
  (forall el, audioRef h = Some el -> el_canplay_once el = false).

(** A hook whose engines are gone. *)
Definition torn_down (h : hook num) : Prop :=
  audioContext (webAudio h) = None /\
  audioRef h = None /\
  activeSources (webAudio h) = [].

(** ** useWebAudio: the context effect and the unlock listeners
    (index.ts, 28-69) *)

(** A hook together with the state useWebAudio keeps for the suspended
    context: [isAudioSuspended], whether the statechange listener is on the
    context, and whether the click and touchend listeners are on the
    window. *)
Record unlocking : Type := {
  hook_of : hook num;
  isAudioSuspended : bool;
  statechange_listener : bool;
  unlock_listeners : bool
}.

(** [new AudioContext({ sampleRate })]; the browser decides whether it
    starts suspended. *)
Definition new_AudioContext (sampleRate : num) (suspended : bool)
  : audio_context num :=
  {| ctx_currentTime := num_zero; ctx_sampleRate := sampleRate;
     ctx_suspended := suspended |}.

(** [handleStateChange]: a closed context is not suspended. *)
Definition handleStateChange (u : unlocking) : unlocking :=
  {| hook_of := hook_of u;
     isAudioSuspended :=
       match audioContext (webAudio (hook_of u)) with
       | Some ctx => ctx_suspended ctx
       | None => false
       end;
     statechange_listener := statechange_listener u;
     unlock_listeners := unlock_listeners u |}.

(** The first effect of useWebAudio, run at mount and whenever the
    [sampleRate] option changes (index.ts, 35-53). *)
Definition context_effect (has_window : bool) (sampleRate : num)
  (starts_suspended : bool) (u : unlocking) : unlocking :=
  if negb has_window then u
  else
    let h := hook_of u in
    let h1 :=
      match audioContext (webAudio h) with
      | Some _ => h
      | None =>
          set_webAudio
            (set_audioContext (Some (new_AudioContext sampleRate starts_suspended))
                              (webAudio h)) h
      end in
    handleStateChange
      {| hook_of := h1; isAudioSuspended := isAudioSuspended u;
         statechange_listener := true; unlock_listeners := unlock_listeners u |}.

(** The second effect with its cleanup (index.ts, 55-69): after a commit
    the window has the unlock listeners exactly when [isAudioSuspended]. *)
Definition unlock_effect (u : unlocking) : unlocking :=
  {| hook_of := hook_of u; isAudioSuspended := isAudioSuspended u;
     statechange_listener := statechange_listener u;
     unlock_listeners := isAudioSuspended u |}.

(** [unlock]: [audioContext.current?.resume()]. *)
Definition unlock (u : unlocking) : unlocking :=
  let h := hook_of u in
  {| hook_of :=
       match audioContext (webAudio h) with
       | Some ctx =>
           set_webAudio
             (set_audioContext (Some (set_ctx_suspended false ctx)) (webAudio h)) h
       | None => h
       end;
     isAudioSuspended := isAudioSuspended u;
     statechange_listener := statechange_listener u;
     unlock_listeners := unlock_listeners u |}.

Inductive page_event : Type :=
| OnHook (e : event num)   (* an event of the hook; a commit also runs the unlock
                              effect, unmounting removes every listener *)
| StateChange              (* the context reports that its state changed *)
| Click.                   (* a click or touchend anywhere on the window *)

Definition is_commit (e : event num) : bool :=
  match e with
  | Commit => true
  | _ => false
  end.

Definition is_unmount (e : event num) : bool :=
  match e with
  | Unmount => true
  | _ => false
  end.

Definition apply_page_event (e : page_event) (u : unlocking) : unlocking :=
  match e with
  | OnHook ev =>
      let u1 :=
        {| hook_of := await [ev] (hook_of u);
           isAudioSuspended := isAudioSuspended u;
           statechange_listener := statechange_listener u;
           unlock_listeners := unlock_listeners u |} in
      if is_commit ev then unlock_effect u1
      else if is_unmount ev then
        {| hook_of := hook_of u1; isAudioSuspended := isAudioSuspended u1;
           statechange_listener := false; unlock_listeners := false |}
      else u1
  | StateChange => if statechange_listener u then handleStateChange u else u
  | Click => if unlock_listeners u then unlock u else u
  end.

Definition run_page (evs : list page_event) (u : unlocking) : unlocking :=
  fold_left (fun u' e => apply_page_event e u') evs u.

End Life.

Arguments action : clear implicits.
Arguments unlocking : clear implicits.
Arguments page_event : clear implicits.

(** ** Concrete sessions over [Q] *)

(** A stream whose chunks arrive while nothing else happens. *)
Definition quiet (chunks : list (list byte)) : stream Q :=
  {| deliveries := map (fun chunk => {| during := []; value := chunk |}) chunks;
     closing := [] |}.

Definition chunk3 : list byte := [x00; x00; x80].
Definition chunk5 : list byte := [x3f; x00; x00; x00; x40].
Definition chunk4 : list byte := [x00; x00; x80; x3f].
Definition chunk8 : list byte := chunk3 ++ chunk5.

(** The default sample rate. *)
Definition rate24000 : Q := num_of_Z 24000.

(** Half a second of silence at 8000 Hz in one chunk. *)
Definition tone : list byte := repeat x00 (4 * 4000).

(** The hook when the stream of [tone] has been ingested: mounted at
    8000 Hz with the transition enabled, context clock at 0. *)
Definition after_stream : hook Q :=
  final (streamAudio (quiet [tone]) (mounted (num_of_Z 8000) true 0%Q)).

(** The buffered resource becomes playable, React commits the render that
    [setIsAudioReady(true)] caused, then the render that
    [setIsAudioTransitioned(true)] caused. *)
Definition handoff : list (event Q) := [CanPlay; Commit; Commit].

(** A tenth of a second later the interval of the time effect fires, and
    React commits the render that [setCurrentTime] caused. *)
Definition first_tick : list (event Q) := [Elapse (1 # 10)%Q; TimerTick; Commit].

(** A freshly mounted hook at the default rate, transition enabled, whose
    context clock reads 0. *)
Definition fresh : hook Q := mounted rate24000 true 0%Q.

(** The same hook when its context clock has reached 5 seconds. *)
Definition fresh_at_5 : hook Q := mounted rate24000 true (5 # 1)%Q.

(** The same hook with the transition disabled. *)
Definition fresh_no_transition : hook Q := mounted rate24000 false 0%Q.

(** The hook of [after_stream] once the handoff and the first tick of the
    time effect are over: transitioned, playing, position published. *)
Definition playing_buffered : hook Q :=
  await (handoff ++ first_tick) after_stream.

(** The resource the audio element of a hook is playing. *)
Definition el_src_of (h : hook Q) : option (audio_buffer Q) :=
  match audioRef h with
  | Some el => el_src el
  | None => None
  end.

(** ** Further concrete sessions *)

(** A stream during which the caller pauses, the timer ticks, and the
    caller resumes, while the chunks arrive. *)
Definition busy : stream Q :=
  {| deliveries :=
       [ {| during := [CallPause; Elapse (1 # 10)%Q; TimerTick]; value := chunk3 |};
         {| during := [CallPlay; Commit]; value := chunk5 |} ];
     closing := [TimerTick] |}.

(** A stream whose caller stops, then plays, before the first chunk has
    arrived. *)
Definition stopped_early : stream Q :=
  {| deliveries := [ {| during := [CallStop; CallPlay]; value := chunk8 |} ];
     closing := [] |}.

(** The hook of [playing_buffered] once the caller has paused it. *)
Definition paused_buffered : hook Q :=
  await [CallPause; Commit] playing_buffered.

(** The hook of [after_stream] when its ready flag has been set. *)
Definition ready_after_stream : hook Q := await [CanPlay] after_stream.

(** The page of [after_stream], the state-change listener installed. *)
Definition page_after_stream : unlocking Q :=
  {| hook_of := after_stream;
     isAudioSuspended := false;
     statechange_listener := true;
     unlock_listeners := false |}.

(** A page whose hook has no context yet. *)
Definition page_without_context : unlocking Q :=
  {| hook_of := await [Unmount] fresh;
     isAudioSuspended := false;
     statechange_listener := false;
     unlock_listeners := false |}.

Unset Implicit Arguments.
(** ** Facts about the views *)

Lemma float32_view_length (buf : list byte) (count : nat) :
  4 * count <= length buf -> length (float32_view buf count) = count.
Proof.
  revert buf; induction count as [|k IH]; intros buf Hle; [reflexivity|].
  destruct buf as [|b0 [|b1 [|b2 [|b3 rest]]]]; simpl in Hle; try lia.
  simpl. f_equal. apply IH. lia.
Qed.

Lemma float32_view_bytes (buf : list byte) (count : nat) :
  4 * count <= length buf ->
  buffer_bytes (float32_view buf count) = firstn (4 * count) buf.
Proof.
  revert buf; induction count as [|k IH]; intros buf Hle; [reflexivity|].
  destruct buf as [|b0 [|b1 [|b2 [|b3 rest]]]]; simpl in Hle; try lia.
  replace (4 * S k) with (S (S (S (S (4 * k))))) by lia.
  cbn [float32_view buffer_bytes flat_map sample_bytes s0 s1 s2 s3 app firstn].
  do 4 f_equal. apply IH. lia.
Qed.

Lemma buffer_bytes_length (buffer : list sample) :
  length (buffer_bytes buffer) = 4 * length buffer.
Proof.
  induction buffer as [|s l IH]; [reflexivity|].
  unfold buffer_bytes in *. cbn [flat_map sample_bytes].
  rewrite length_app, IH. simpl. lia.
Qed.

Lemma buffer_bytes_app (a b : list sample) :
  buffer_bytes (a ++ b) = buffer_bytes a ++ buffer_bytes b.
Proof. unfold buffer_bytes. apply flat_map_app. Qed.

Lemma aligned_prefix (n : nat) : (n / 4) * 4 / 4 = n / 4.
Proof. apply Nat.div_mul. discriminate. Qed.

Lemma aligned_split (n : nat) : n = (n / 4) * 4 + n mod 4.
Proof. rewrite (Nat.div_mod_eq n 4) at 1. lia. Qed.

Lemma data_combined (leftover value : list byte) :
  typed_set value (length leftover)
    (typed_set leftover 0 (repeat x00 (length leftover + length value)))
  = leftover ++ value.
Proof.
  unfold typed_set. cbn [firstn Nat.add app].
  rewrite repeat_app, skipn_app, repeat_length, Nat.sub_diag, skipn_O.
  rewrite skipn_all2 by (rewrite repeat_length; lia). cbn [app].
  rewrite firstn_app, Nat.sub_diag, firstn_O, app_nil_r, firstn_all.
  rewrite skipn_app, skipn_all2 by lia.
  replace (length leftover + length value - length leftover)
    with (length value) by lia.
  rewrite skipn_all2 by (rewrite repeat_length; lia).
  now rewrite app_nil_r.
Qed.

(** The decode step keeps every byte, in order. *)
Lemma decode_bytes (leftover value : list byte) :
  buffer_bytes (fst (decode leftover value)) ++ snd (decode leftover value)
  = leftover ++ value.
Proof.
  unfold decode, uint8_view. rewrite data_combined. cbn [fst snd].
  set (data := leftover ++ value).
  rewrite aligned_prefix.
  pose proof (aligned_split (length data)) as Hsplit.
  rewrite float32_view_bytes by lia.
  replace (4 * (length data / 4)) with (length data / 4 * 4) by lia.
  rewrite (firstn_all2 (n := length data mod 4)).
  - apply firstn_skipn.
  - rewrite length_skipn. lia.
Qed.

Lemma decode_samples (leftover value : list byte) :
  length (fst (decode leftover value)) = length (leftover ++ value) / 4.
Proof.
  unfold decode. rewrite data_combined. cbn [fst]. rewrite aligned_prefix.
  apply float32_view_length.
  pose proof (aligned_split (length (leftover ++ value))). lia.
Qed.

Lemma decode_leftover (leftover value : list byte) :
  length (snd (decode leftover value)) = length (leftover ++ value) mod 4.
Proof.
  unfold decode, uint8_view. rewrite data_combined. cbn [snd].
  rewrite length_firstn, length_skipn.
  pose proof (aligned_split (length (leftover ++ value))). lia.
Qed.


(** ** The sub-hooks never raise *)

Section HookFacts.

Context {num : Type} {N : JsNumber num}.

Lemma stop_sources_returns (srcs : list (source_node num)) :
  stop_sources srcs = Returned tt.
Proof.
  induction srcs as [|src rest IH]; [reflexivity|].
  cbn [stop_sources]. unfold source_stop, source_disconnect.
  destruct (node_ended src); cbn; exact IH.
Qed.

Lemma stopStream_eq (h : hook num) :
  stopStream h
  = Returned (updatePlayingState false
                (set_webAudio
                   (set_activeSources [] (set_isAudioPlaying false (webAudio h))) h)).
Proof. unfold stopStream. cbn [webAudio set_webAudio]. rewrite stop_sources_returns. reflexivity. Qed.

(** ** The ingestion loop keeps every byte *)

Lemma copyToChannel_created (ctx : audio_context num) (buffer : list sample) (rate : num) :
  buffer <> [] ->
  exists created,
    createBuffer ctx (length buffer) rate = Returned created /\
    copyToChannel buffer created = {| ab_data := buffer; ab_sampleRate := rate |}.
Proof.
  intros Hne. unfold createBuffer.
  destruct (length buffer =? 0) eqn:Hlen.
  - apply Nat.eqb_eq in Hlen. destruct buffer; [congruence|discriminate].
  - eexists; split; [reflexivity|].
    unfold copyToChannel. cbn [ab_data ab_sampleRate].
    rewrite repeat_length, firstn_all, skipn_all2 by (rewrite repeat_length; lia).
    now rewrite app_nil_r.
Qed.

Lemma ingest_chunk_spec (ctx : audio_context num) (chunk : list byte)
  (st : ingestion num) (h : hook num) :
  let buffer := fst (decode (leftover st) chunk) in
  let audioBuffer := {| ab_data := buffer; ab_sampleRate := ctx_sampleRate ctx |} in
  exists st1 h1,
    ingest_chunk ctx chunk st h = Returned (st1, h1) /\
    ingested st1 = S (ingested st) /\
    leftover st1 = snd (decode (leftover st) chunk) /\
    ((buffer = [] /\ allBuffers st1 = allBuffers st /\
      scheduled st1 = scheduled st /\ nextStartTime st1 = nextStartTime st /\
      h1 = h)
     \/
     (buffer <> [] /\ allBuffers st1 = allBuffers st ++ [buffer] /\
      scheduled st1 = scheduled st ++ [(nextStartTime st, audioBuffer)] /\
      nextStartTime st1 = num_add (nextStartTime st) (ab_duration audioBuffer) /\
      h1 = snd (createAndScheduleAudioSource audioBuffer (nextStartTime st) h))).
Proof.
  cbn zeta. unfold ingest_chunk.
  destruct (decode (leftover st) chunk) as [buffer rest]. cbn [fst snd].
  destruct (length buffer =? 0) eqn:Hlen.
  - apply Nat.eqb_eq in Hlen.
    assert (buffer = []) as -> by (destruct buffer; [reflexivity|discriminate]).
    do 2 eexists. split; [reflexivity|]. cbn. auto 10.
  - assert (buffer <> []) as Hne by (intros ->; discriminate).
    destruct (copyToChannel_created ctx buffer (ctx_sampleRate ctx) Hne) as (created & Hc & Hcopy).
    rewrite Hc. cbn [bind]. rewrite Hcopy.
    do 2 eexists. split; [reflexivity|]. cbn. auto 10.
Qed.

Lemma ingest_chunk_bytes (ctx : audio_context num) (chunk : list byte)
  (st st1 : ingestion num) (h h1 : hook num) :
  ingest_chunk ctx chunk st h = Returned (st1, h1) ->
  session_bytes st1 = session_bytes st ++ chunk.
Proof.
  intros Hrun.
  destruct (ingest_chunk_spec ctx chunk st h) as (st' & h' & Heq & _ & Hleft & Hcase).
  rewrite Hrun in Heq. injection Heq as <- <-.
  pose proof (decode_bytes (leftover st) chunk) as Hbytes.
  unfold session_bytes. rewrite Hleft.
  destruct Hcase as [(Hnil & Hall & _) | (_ & Hall & _)]; rewrite Hall.
  - rewrite Hnil in Hbytes. cbn [buffer_bytes flat_map app] in Hbytes.
    rewrite Hbytes. now rewrite app_assoc.
  - rewrite concat_app. cbn [concat]. rewrite app_nil_r, buffer_bytes_app.
    rewrite <- !app_assoc. now rewrite Hbytes.
Qed.

Lemma locals_on_done (st : ingestion num) (h : hook num) :
  locals (on_done st h) = st.
Proof.
  unfold on_done. destruct (enableTransition h); [|reflexivity].
  destruct (finalize st h); reflexivity.
Qed.

(** What the loop guarantees for the chunks it ingested, whatever happens
    around it. *)
Lemma ingest_bytes (ds : list (delivery num)) (cl : list (event num)) :
  forall (st : ingestion num) (h : hook num),
    exists k,
      ingested (locals (ingest ds cl st h)) = ingested st + k /\
      k <= length ds /\
      session_bytes (locals (ingest ds cl st h))
      = session_bytes st ++ concat (map (@value num) (firstn k ds)).
Proof.
  induction ds as [|d rest IH]; intros st h.
  - exists 0. cbn. rewrite app_nil_r. auto.
  - cbn [ingest].
    destruct (audioContext (webAudio h)) as [ctx|];
      [destruct (isAudioPlaying (webAudio h))|];
      try (exists 0; cbn; rewrite app_nil_r; split; [lia|split; [lia|reflexivity]]).
    destruct (ingest_chunk_spec ctx (value d) st h) as (st1 & h1 & Heq & Hcount & _).
    rewrite Heq. pose proof (ingest_chunk_bytes _ _ _ _ _ _ Heq) as Hstep.
    destruct rest as [|next rest'].
    + exists 1. cbn [firstn map concat length]. rewrite app_nil_r.
      rewrite locals_on_done.
      split; [lia|]. split; [lia|]. exact Hstep.
    + destruct (IH st1 (await (during next) h1)) as (k & Hk & Hle & Hbytes).
      exists (S k). split; [lia|]. split; [cbn [length] in *; lia|].
      rewrite Hbytes, Hstep. cbn [firstn map concat].
      now rewrite <- !app_assoc.
Qed.


(** ** What the events leave alone *)

Lemma wav_calls_snoc (cs : list (external_call num)) (c : external_call num) :
  wav_calls (cs ++ [c]) = wav_calls cs + (if is_wav_call c then 1 else 0).
Proof.
  unfold wav_calls. rewrite filter_app, length_app. cbn [filter].
  destruct (is_wav_call c); reflexivity.
Qed.

Lemma same_setup_refl (h : hook num) : same_setup h h.
Proof. unfold same_setup. repeat split. intros c' Hc. eauto. Qed.

Lemma same_setup_trans (h1 h2 h3 : hook num) :
  same_setup h1 h2 -> same_setup h2 h3 -> same_setup h1 h3.
Proof.
  intros (He1 & Hw1 & Hc1) (He2 & Hw2 & Hc2). unfold same_setup.
  repeat split; try congruence.
  intros c3 H3. destruct (Hc2 _ H3) as (c2 & H2 & Hr2).
  destruct (Hc1 _ H2) as (c1 & H1 & Hr1). exists c1. split; congruence.
Qed.

Create HintDb callbacks.

#[local] Hint Unfold apply_event stop stop_closure play pause rewind rewind_closure
  cleanup
  resetState streamAudio_begin transition_effect time_tick canplay elapse
  webAudio_cleanup webAudio_resetState html5Audio_cleanup stopAudio pauseAudio
  playAudio rewindAudio playStream pauseStream html5Audio_setCurrentTime
  html5Audio_getCurrentTime webAudio_getCurrentTime setupAudioListeners
  setAudioSource : callbacks.

Ltac unfold_callbacks := repeat autounfold with callbacks in *.

Ltac case_split :=
  match goal with
  | |- context [if ?b then _ else _] => destruct b eqn:?
  | |- context [match ?x with Some _ => _ | None => _ end] => destruct x eqn:?
  end.

Ltac run_callbacks :=
  unfold_callbacks;
  repeat (rewrite ?stopStream_eq; cbn [bind]; cbn; try case_split).

Lemma apply_event_setup (e : event num) (h : hook num) :
  exists h', apply_event e h = Returned h' /\ same_setup h h'.
Proof.
  destruct e; run_callbacks;
    (eexists; split; [reflexivity|]);
    unfold same_setup, updatePlayingState, call; cbn.
  all: repeat split.
  all: try (unfold wav_calls; rewrite ?filter_app, ?length_app; cbn; lia).
  all: try (intros c' Hc; try discriminate; try (injection Hc as <-);
            try rewrite Hc in *; eauto; fail).
Qed.

Lemma run_events_setup (evs : list (event num)) :
  forall h : hook num, exists h', run_events evs h = Returned h' /\ same_setup h h'.
Proof.
  induction evs as [|e rest IH]; intros h.
  - exists h. split; [reflexivity|apply same_setup_refl].
  - destruct (apply_event_setup e h) as (h1 & He & Hs1).
    destruct (IH h1) as (h2 & Hr & Hs2).
    exists h2. cbn [run_events]. rewrite He. cbn [bind].
    split; [exact Hr|eapply same_setup_trans; eassumption].
Qed.

(** No handler raises: [await] is the state the events lead to. *)
Lemma run_events_returns (evs : list (event num)) (h : hook num) :
  run_events evs h = Returned (await evs h).
Proof.
  unfold await. destruct (run_events_setup evs h) as (h' & Hr & _).
  now rewrite Hr.
Qed.

Lemma await_setup (evs : list (event num)) (h : hook num) :
  same_setup h (await evs h).
Proof.
  destruct (run_events_setup evs h) as (h' & Hr & Hs).
  rewrite run_events_returns in Hr. now injection Hr as <-.
Qed.

Lemma streamAudio_begin_returns (h : hook num) :
  exists h1,
    streamAudio_begin h = Returned h1 /\
    same_setup h h1 /\
    audioContext (webAudio h1) = audioContext (webAudio h) /\
    isAudioPlaying (webAudio h1) = true /\
    isAudioReady h1 = false /\
    isAudioTransitioned h1 = false.
Proof.
  destruct (apply_event_setup CallStreamAudio h) as (h1 & He & Hs).
  cbn [apply_event] in He. exists h1. split; [exact He|]. split; [exact Hs|].
  revert He. run_callbacks; intros He; injection He as <-; cbn; auto.
Qed.

(** ** Byte conservation (C1) *)

Lemma streamAudio_bytes (s : stream num) (h : hook num) :
  exists k,
    ingested (locals (streamAudio s h)) = k /\
    k <= length (deliveries s) /\
    session_bytes (locals (streamAudio s h))
    = concat (map (@value num) (firstn k (deliveries s))).
Proof.
  unfold streamAudio.
  destruct (streamAudio_begin_returns h) as (h1 & -> & _).
  match goal with
  | |- context [ingest ?ds ?cl ?st ?hh] =>
      destruct (ingest_bytes ds cl st hh) as (k & Hk & Hle & Hb)
  end.
  exists k. cbn zeta. rewrite Hk, Hb. cbn. auto.
Qed.

(** C1. Byte conservation of the decoder: when every chunk of the stream
    was ingested (the session was not cut short), four times the number of
    decoded samples plus the length of the final leftover is the number of
    input bytes, whatever the chunk boundaries; indeed the decoded samples
    followed by the leftover are exactly the input bytes, in order. *)
Theorem byte_conservation (s : stream num) (h : hook num) :
  ingested (locals (streamAudio s h)) = length (deliveries s) ->
  4 * length (concat (allBuffers (locals (streamAudio s h))))
    + length (leftover (locals (streamAudio s h)))
  = length (concat (map (@value num) (deliveries s)))
  /\
  buffer_bytes (concat (allBuffers (locals (streamAudio s h))))
    ++ leftover (locals (streamAudio s h))
  = concat (map (@value num) (deliveries s)).
Proof.
  intros Hall.
  destruct (streamAudio_bytes s h) as (k & Hk & _ & Hbytes).
  rewrite Hall in Hk. subst k. rewrite firstn_all in Hbytes.
  unfold session_bytes in Hbytes. split; [|exact Hbytes].
  rewrite <- Hbytes, length_app, buffer_bytes_length. reflexivity.
Qed.

(** ** Loop invariants and the decode step (C7) *)

(** An invariant of the locals [P] and of the hook [I] that every
    iteration and every await keep holds when the loop is left. *)
Lemma ingest_invariant (P : ingestion num -> Prop) (Inv : hook num -> Prop) :
  (forall ctx chunk st h st1 h1,
     P st -> Inv h -> audioContext (webAudio h) = Some ctx ->
     ingest_chunk ctx chunk st h = Returned (st1, h1) -> P st1 /\ Inv h1) ->
  (forall evs h, Inv h -> Inv (await evs h)) ->
  forall ds cl st h, P st -> Inv h -> P (locals (ingest ds cl st h)).
Proof.
  intros Hstep Hawait ds cl.
  induction ds as [|d rest IH]; intros st h HP HI; [exact HP|].
  cbn [ingest].
  destruct (audioContext (webAudio h)) as [ctx|] eqn:Hctx;
    [destruct (isAudioPlaying (webAudio h))|]; try exact HP.
  destruct (ingest_chunk_spec ctx (value d) st h) as (st1 & h1 & Heq & _).
  rewrite Heq. destruct (Hstep _ _ _ _ _ _ HP HI Hctx Heq) as (HP1 & HI1).
  destruct rest as [|next rest'].
  - now rewrite locals_on_done.
  - apply IH; [exact HP1|apply Hawait; exact HI1].
Qed.

Lemma streamAudio_invariant (P : ingestion num -> Prop) (Inv : hook num -> Prop)
  (s : stream num) (h : hook num) :
  (forall ctx chunk st h st1 h1,
     P st -> Inv h -> audioContext (webAudio h) = Some ctx ->
     ingest_chunk ctx chunk st h = Returned (st1, h1) -> P st1 /\ Inv h1) ->
  (forall evs h, Inv h -> Inv (await evs h)) ->
  (forall h1, streamAudio_begin h = Returned h1 ->
     P {| nextStartTime := webAudio_getCurrentTime h1; totalDuration := num_zero;
          allBuffers := []; leftover := []; source := None; scheduled := [];
          ingested := 0 |} /\
     Inv (updatePlayingState true (await (first_await s) h1))) ->
  P (locals (streamAudio s h)).
Proof.
  intros Hstep Hawait Hinit. unfold streamAudio.
  destruct (streamAudio_begin_returns h) as (h1 & Hb & _).
  rewrite Hb. destruct (Hinit h1 Hb) as (HP & HI).
  cbn zeta. now apply ingest_invariant with (Inv := Inv).
Qed.


(** ** Scheduling (C2) *)

Lemma elapsed_after_snoc (t0 t : num) (b : audio_buffer num)
  (sched : list (num * audio_buffer num)) :
  elapsed_after t0 (sched ++ [(t, b)])
  = num_add (elapsed_after t0 sched) (ab_duration b).
Proof.
  unfold elapsed_after, durations. rewrite map_app, fold_left_app. reflexivity.
Qed.

Lemma contiguous_snoc (sched : list (num * audio_buffer num)) :
  forall (t0 t : num) (b : audio_buffer num),
    contiguous t0 sched -> t = elapsed_after t0 sched ->
    contiguous t0 (sched ++ [(t, b)]).
Proof.
  induction sched as [|[t1 b1] rest IH]; intros t0 t b Hc Ht.
  - cbn in *. auto.
  - cbn [contiguous app] in *. destruct Hc as (-> & Hc). split; [reflexivity|].
    apply IH; [exact Hc|exact Ht].
Qed.

Lemma contiguous_nth (sched : list (num * audio_buffer num)) :
  forall (t0 : num) (i : nat) (t : num) (b : audio_buffer num),
    contiguous t0 sched -> nth_error sched i = Some (t, b) ->
    t = elapsed_after t0 (firstn i sched).
Proof.
  induction sched as [|[t1 b1] rest IH]; intros t0 i t b Hc Hn.
  - destruct i; discriminate.
  - cbn [contiguous] in Hc. destruct Hc as (-> & Hc). destruct i as [|i].
    + cbn in Hn. injection Hn as <- <-. reflexivity.
    + cbn [nth_error] in Hn. cbn [firstn].
      rewrite (IH _ _ _ _ Hc Hn). reflexivity.
Qed.

Lemma firstn_succ_nth {A : Type} (l : list A) :
  forall (i : nat) (x : A),
    nth_error l i = Some x -> firstn (S i) l = firstn i l ++ [x].
Proof.
  induction l as [|y rest IH]; intros i x Hn.
  - destruct i; discriminate.
  - destruct i as [|i].
    + cbn in Hn. injection Hn as <-. reflexivity.
    + cbn [nth_error] in Hn. cbn [firstn app]. f_equal.
      apply IH. exact Hn.
Qed.

Lemma same_setup_frame (h0 h : hook num) (w : web_audio num) (playing : bool) :
  same_setup h0 h ->
  audioContext w = audioContext (webAudio h) ->
  same_setup h0 (updatePlayingState playing (set_webAudio w h)).
Proof.
  intros (He & Hw & Hc) Hctx. unfold same_setup. cbn.
  repeat split; try assumption.
  - unfold wav_calls in *. rewrite filter_app, length_app. cbn. lia.
  - intros c' H'. apply Hc. congruence.
Qed.

Lemma same_setup_schedule (h0 h : hook num) (b : audio_buffer num) (t : num) :
  same_setup h0 h -> same_setup h0 (snd (createAndScheduleAudioSource b t h)).
Proof. intros (He & Hw & Hc). unfold same_setup. cbn. auto. Qed.

(** A call of [streamAudio] is the loop started from the clock reading of
    the hook it was called on, in a hook that differs from it only in what
    no event changes. *)
Lemma streamAudio_unfold (s : stream num) (h : hook num) :
  exists h3,
    same_setup h h3 /\
    streamAudio s h
    = ingest (deliveries s) (closing s)
        {| nextStartTime := webAudio_getCurrentTime h; totalDuration := num_zero;
           allBuffers := []; leftover := []; source := None; scheduled := [];
           ingested := 0 |} h3.
Proof.
  unfold streamAudio.
  destruct (streamAudio_begin_returns h) as (h1 & Hb & Hs1 & Hctx1 & _).
  rewrite Hb. cbn zeta.
  exists (updatePlayingState true (await (first_await s) h1)). split.
  - pose proof (await_setup (first_await s) h1) as Hs2.
    pose proof (same_setup_frame _ _ (webAudio (await (first_await s) h1)) true
                  (same_setup_trans _ _ _ Hs1 Hs2) eq_refl) as Hs3.
    now destruct (await (first_await s) h1).
  - unfold webAudio_getCurrentTime. now rewrite Hctx1.
Qed.

(** The invariant of the scheduler: buffers are scheduled back to back from
    [t0], [nextStartTime] is where the last one ends, and every scheduled
    buffer is non-empty and at the sample rate of the context. *)
Lemma streamAudio_schedule (s : stream num) (h : hook num) :
  let st := locals (streamAudio s h) in
  contiguous (webAudio_getCurrentTime h) (scheduled st) /\
  nextStartTime st = elapsed_after (webAudio_getCurrentTime h) (scheduled st) /\
  Forall (fun entry =>
            ab_data (snd entry) <> [] /\
            exists ctx, audioContext (webAudio h) = Some ctx /\
                        ab_sampleRate (snd entry) = ctx_sampleRate ctx)
         (scheduled st) /\
  map (fun entry => ab_data (snd entry)) (scheduled st) = allBuffers st.
Proof.
  cbn zeta.
  apply streamAudio_invariant with
    (P := fun st =>
            contiguous (webAudio_getCurrentTime h) (scheduled st) /\
            nextStartTime st = elapsed_after (webAudio_getCurrentTime h) (scheduled st) /\
            Forall (fun entry =>
                      ab_data (snd entry) <> [] /\
                      exists ctx, audioContext (webAudio h) = Some ctx /\
                                  ab_sampleRate (snd entry) = ctx_sampleRate ctx)
                   (scheduled st) /\
            map (fun entry => ab_data (snd entry)) (scheduled st) = allBuffers st)
    (Inv := same_setup h).
  - intros ctx chunk st h0 st1 h1 (Hc & Hn & Hf & Hm) Hs Hctx Hrun.
    destruct (ingest_chunk_spec ctx chunk st h0)
      as (st' & h' & Heq & _ & _ & Hcase).
    rewrite Hrun in Heq. injection Heq as <- <-.
    destruct Hcase as [(_ & Hall & Hsch & Hnext & ->)
                      | (Hne & Hall & Hsch & Hnext & ->)];
      rewrite Hsch, Hnext, Hall.
    + auto.
    + split; [split; [|split; [|split]]|].
      * apply contiguous_snoc; assumption.
      * rewrite elapsed_after_snoc. now rewrite Hn.
      * apply Forall_app. split; [exact Hf|]. constructor; [|constructor].
        cbn [snd ab_data ab_sampleRate]. split; [exact Hne|].
        destruct Hs as (_ & _ & Hrate). apply Hrate. exact Hctx.
      * rewrite map_app, Hm. reflexivity.
      * apply same_setup_schedule. exact Hs.
  - intros evs h0 Hs. eapply same_setup_trans; [exact Hs|apply await_setup].
  - intros h1 Hb.
    destruct (streamAudio_begin_returns h) as (h1' & Hb' & Hs & Hctx & _).
    rewrite Hb in Hb'. injection Hb' as <-.
    split.
    + cbn. unfold webAudio_getCurrentTime. rewrite Hctx. auto.
    + pose proof (await_setup (first_await s) h1) as Hs2.
      pose proof (same_setup_trans _ _ _ Hs Hs2) as Hs3.
      pose proof (same_setup_frame _ _ (webAudio (await (first_await s) h1)) true Hs3 eq_refl) as Hs4.
      destruct (await (first_await s) h1). exact Hs4.
Qed.

Lemma ingest_schedule_of (ds : list (delivery num)) (cl : list (event num)) (r : num) :
  forall (st : ingestion num) (h : hook num),
    (forall c, audioContext (webAudio h) = Some c -> ctx_sampleRate c = r) ->
    scheduled (locals (ingest ds cl st h))
    = scheduled st
      ++ schedule_of r (nextStartTime st) (leftover st)
           (map (@value num)
                (firstn (ingested (locals (ingest ds cl st h)) - ingested st) ds)).
Proof.
  induction ds as [|d rest IH]; intros st h Hrate.
  - cbn [ingest locals settled]. rewrite firstn_nil. cbn. now rewrite app_nil_r.
  - cbn [ingest].
    destruct (audioContext (webAudio h)) as [ctx|] eqn:Hctx;
      [destruct (isAudioPlaying (webAudio h))|];
      try (cbn [locals settled]; rewrite Nat.sub_diag; cbn; now rewrite app_nil_r).
    destruct (ingest_chunk_spec ctx (value d) st h)
      as (st1 & h1 & Heq & Hcount & Hleft & Hcase).
    rewrite Heq.
    assert (Hone :
      scheduled st1
      = scheduled st
        ++ schedule_of r (nextStartTime st) (leftover st) [value d]
      /\ forall more,
           schedule_of r (nextStartTime st) (leftover st) (value d :: more)
           = schedule_of r (nextStartTime st) (leftover st) [value d]
             ++ schedule_of r (nextStartTime st1) (leftover st1) more).
    { cbn [schedule_of]. rewrite Hleft.
      destruct (decode (leftover st) (value d)) as [buffer left'].
      cbn [fst snd] in *.
      destruct Hcase as [(-> & _ & Hsch & Hnext & _) | (Hne & _ & Hsch & Hnext & _)].
      - cbn. rewrite Hsch, Hnext, app_nil_r. auto.
      - destruct (length buffer =? 0) eqn:Hlen.
        + apply Nat.eqb_eq in Hlen. destruct buffer; [congruence|discriminate].
        + rewrite Hsch, Hnext, (Hrate ctx eq_refl). cbn. auto. }
    destruct Hone as (Hsched1 & Hsplit).
    assert (Hrate1 : forall c, audioContext (webAudio h1) = Some c -> ctx_sampleRate c = r).
    { destruct Hcase as [(_ & _ & _ & _ & ->) | (_ & _ & _ & _ & ->)];
        cbn; rewrite Hctx; intros c Hc; injection Hc as <-; now apply Hrate. }
    destruct rest as [|next rest'].
    + rewrite locals_on_done, Hcount.
      replace (S (ingested st) - ingested st) with 1 by lia.
      cbn [firstn map]. exact Hsched1.
    + specialize (IH st1 (await (during next) h1)).
      rewrite IH.
      * pose proof (ingest_bytes (next :: rest') cl st1 (await (during next) h1))
          as (k & Hk & _ & _).
        rewrite Hk, Hcount.
        replace (S (ingested st) + k - S (ingested st)) with k by lia.
        replace (S (ingested st) + k - ingested st) with (S k) by lia.
        cbn [firstn map]. rewrite Hsplit, Hsched1. now rewrite <- app_assoc.
      * intros c Hc.
        destruct (await_setup (during next) h1) as (_ & _ & Hsame).
        destruct (Hsame c Hc) as (c1 & Hc1 & ->). now apply Hrate1.
Qed.

(** C2. Scheduling contiguity: in every session the start time of the
    buffer scheduled next is the start time of the previous one plus its
    duration; equivalently each start time is the clock reading taken when
    the session began plus the durations of all buffers scheduled before,
    added in order.  Scheduled buffers are non-empty and their duration is
    their sample count over their sample rate, which is the context's.
    The schedule is a function of that clock reading, the sample rate and
    the ingested chunks alone, whatever happens, and whenever, while the
    loop waits for a chunk. *)
Theorem scheduling_contiguity (s : stream num) (h : hook num) :
  let sched := scheduled (locals (streamAudio s h)) in
  (forall i start_i b_i start_j b_j,
     nth_error sched i = Some (start_i, b_i) ->
     nth_error sched (S i) = Some (start_j, b_j) ->
     start_j = num_add start_i (ab_duration b_i)) /\
  (forall i start b,
     nth_error sched i = Some (start, b) ->
     start = fold_left num_add (durations (firstn i sched))
                       (webAudio_getCurrentTime h) /\
     ab_data b <> [] /\
     ab_duration b = num_div (num_of_Z (Z.of_nat (length (ab_data b)))) (ab_sampleRate b) /\
     exists ctx, audioContext (webAudio h) = Some ctx /\
                 ab_sampleRate b = ctx_sampleRate ctx) /\
  (forall ctx,
     audioContext (webAudio h) = Some ctx ->
     sched
     = schedule_of (ctx_sampleRate ctx) (ctx_currentTime ctx) []
         (map (@value num)
              (firstn (ingested (locals (streamAudio s h))) (deliveries s)))).
Proof.
  cbn zeta.
  destruct (streamAudio_schedule s h) as (Hc & _ & Hf & _).
  split; [|split].
  3: {
    intros ctx Hctx.
    destruct (streamAudio_unfold s h) as (h3 & (_ & _ & Hsame) & ->).
    rewrite (ingest_schedule_of (deliveries s) (closing s) (ctx_sampleRate ctx)).
    - cbn [scheduled nextStartTime leftover ingested app].
      rewrite Nat.sub_0_r. unfold webAudio_getCurrentTime. now rewrite Hctx.
    - intros c Hc3. destruct (Hsame c Hc3) as (c0 & Hc0 & ->). congruence. }
  - intros i ti bi tj bj Hi Hj.
    rewrite (contiguous_nth _ _ _ _ _ Hc Hj), (firstn_succ_nth _ _ _ Hi).
    rewrite elapsed_after_snoc. now rewrite <- (contiguous_nth _ _ _ _ _ Hc Hi).
  - intros i t b Hi. split; [exact (contiguous_nth _ _ _ _ _ Hc Hi)|].
    rewrite Forall_forall in Hf.
    destruct (Hf (t, b) (nth_error_In _ _ Hi)) as (Hne & Hrate).
    cbn [snd] in *. auto.
Qed.

(** ** Scenario A (C6) *)

(** C6 (amended). Scenario A: in a session at sample rate 24000 whose stream
    delivers a single 8-byte chunk, and which ingests it, the decoder
    produces exactly 2 samples holding the 8 bytes, exactly one buffer is
    scheduled, its start time is the reading of the streaming engine's clock
    taken when the session began, and its duration is 2/24000. *)
Theorem scenario_A (s : stream num) (h : hook num)
  (ctx : audio_context num) (d : delivery num) :
  audioContext (webAudio h) = Some ctx ->
  ctx_sampleRate ctx = num_of_Z 24000 ->
  deliveries s = [d] ->
  length (value d) = 8 ->
  ingested (locals (streamAudio s h)) = 1 ->
  exists buffer,
    length buffer = 2 /\
    buffer_bytes buffer = value d /\
    allBuffers (locals (streamAudio s h)) = [buffer] /\
    leftover (locals (streamAudio s h)) = [] /\
    scheduled (locals (streamAudio s h))
    = [(ctx_currentTime ctx,
        {| ab_data := buffer; ab_sampleRate := num_of_Z 24000 |})] /\
    ab_duration {| ab_data := buffer; ab_sampleRate := num_of_Z 24000 |}
    = num_div (num_of_Z 2) (num_of_Z 24000).
Proof.
  intros Hctx Hrate Hds Hlen.
  destruct (streamAudio_unfold s h) as (h3 & Hs3 & ->).
  rewrite Hds.
  cbn [ingest].
  destruct (audioContext (webAudio h3)) as [ctx'|] eqn:Hctx3;
    [destruct (isAudioPlaying (webAudio h3))|];
    try (cbn; discriminate).
  match goal with
  | |- context [ingest_chunk ctx' (value d) ?st0 h3] =>
      destruct (ingest_chunk_spec ctx' (value d) st0 h3)
        as (st1 & h4 & Heq & _ & Hleft & Hcase)
  end.
  rewrite Heq, locals_on_done. intros _.
  cbn [leftover] in Hleft, Hcase.
  pose proof (decode_samples [] (value d)) as Hsamples.
  pose proof (decode_leftover [] (value d)) as Hrest.
  pose proof (decode_bytes [] (value d)) as Hbytes.
  cbn [app] in Hsamples, Hrest, Hbytes. rewrite Hlen in Hsamples, Hrest.
  change (8 / 4) with 2 in Hsamples. change (8 mod 4) with 0 in Hrest.
  destruct (snd (decode [] (value d))) as [|x rest] eqn:Hsnd; [|discriminate].
  rewrite app_nil_r in Hbytes.
  destruct Hs3 as (_ & _ & Hsame). destruct (Hsame _ Hctx3) as (c & Hc & Hr).
  rewrite Hctx in Hc. injection Hc as <-. rewrite Hrate in Hr.
  destruct Hcase as [(Hnil & _) | (_ & Hall & Hsch & _)].
  - rewrite Hnil in Hsamples. discriminate.
  - exists (fst (decode [] (value d))).
    rewrite Hall, Hsch, Hleft, Hr. cbn [allBuffers scheduled nextStartTime app].
    unfold webAudio_getCurrentTime. rewrite Hctx.
    repeat split; try assumption.
    unfold ab_duration. cbn [ab_data ab_sampleRate]. now rewrite Hsamples.
Qed.

(** ** Accumulation (C5) *)

Lemma totalLength_cons (buf : list sample) (bufs : list (list sample)) :
  totalLength (buf :: bufs) = length buf + totalLength bufs.
Proof.
  unfold totalLength. cbn [fold_left].
  generalize (length buf). generalize 0.
  induction bufs as [|b rest IH]; intros a n; cbn [fold_left]; [lia|].
  replace (a + n + length b) with (a + length b + n) by lia. apply IH.
Qed.

Lemma totalLength_sum (bufs : list (list sample)) :
  totalLength bufs = list_sum (map (@length sample) bufs).
Proof.
  induction bufs as [|b rest IH]; [reflexivity|].
  rewrite totalLength_cons, IH. reflexivity.
Qed.

Lemma totalLength_concat (bufs : list (list sample)) :
  totalLength bufs = length (concat bufs).
Proof.
  induction bufs as [|b rest IH]; [reflexivity|].
  rewrite totalLength_cons, IH. cbn [concat]. now rewrite length_app.
Qed.

(** The copy loop writes the chunks one after the other. *)
Lemma fill_spec (bufs : list (list sample)) :
  forall done : list sample,
    fill bufs (length done) (done ++ repeat silence (totalLength bufs))
    = done ++ concat bufs.
Proof.
  induction bufs as [|buf rest IH]; intros done.
  - cbn. reflexivity.
  - cbn [fill concat]. rewrite totalLength_cons, repeat_app.
    unfold typed_set.
    rewrite firstn_app, firstn_all, Nat.sub_diag, firstn_O, app_nil_r.
    rewrite skipn_app, skipn_all2 by lia.
    replace (length done + length buf - length done) with (length buf) by lia.
    rewrite skipn_app, skipn_all2 by (rewrite repeat_length; lia).
    rewrite repeat_length, Nat.sub_diag, skipn_O. cbn [app].
    specialize (IH (done ++ buf)).
    rewrite length_app, <- app_assoc in IH. rewrite IH.
    now rewrite <- app_assoc.
Qed.

Lemma fill_concat (bufs : list (list sample)) :
  fill bufs 0 (repeat silence (totalLength bufs)) = concat bufs.
Proof. exact (fill_spec bufs []). Qed.

Lemma finalize_spec (st : ingestion num) (h : hook num) (ctx : audio_context num) :
  audioContext (webAudio h) = Some ctx ->
  concat (allBuffers st) <> [] ->
  let complete :=
    {| ab_data := concat (allBuffers st); ab_sampleRate := ctx_sampleRate ctx |} in
  exists h',
    finalize st h = Returned h' /\
    originalBuffer (webAudio h') = Some complete /\
    duration h' = ab_duration complete /\
    wav_calls (calls h') = S (wav_calls (calls h)).
Proof.
  intros Hctx Hne. cbn zeta. unfold finalize.
  rewrite Hctx, fill_concat.
  destruct (copyToChannel_created ctx (concat (allBuffers st)) (ctx_sampleRate ctx) Hne)
    as (created & Hc & Hcopy).
  rewrite Hc. cbn [bind]. rewrite Hcopy. eexists. split; [reflexivity|].
  destruct (audioRef h) eqn:Href; unfold setupAudioListeners, setAudioSource;
    cbn; rewrite ?Href; cbn;
    (split; [reflexivity|]); (split; [reflexivity|]);
    unfold wav_calls; rewrite filter_app, length_app; cbn; lia.
Qed.

(** A loop that ingested every chunk has read the completion signal. *)
Lemma ingest_complete (ds : list (delivery num)) (cl : list (event num)) :
  forall (st : ingestion num) (h : hook num),
    ds <> [] ->
    ingested (locals (ingest ds cl st h)) = ingested st + length ds ->
    exists st1 h1, ingest ds cl st h = on_done st1 h1 /\ same_setup h h1.
Proof.
  induction ds as [|d rest IH]; intros st h Hne Hall; [congruence|].
  cbn [ingest] in *.
  destruct (audioContext (webAudio h)) as [ctx|];
    [destruct (isAudioPlaying (webAudio h))|];
    try (cbn in Hall; lia).
  destruct (ingest_chunk_spec ctx (value d) st h)
    as (st1 & h1 & Heq & Hcount & _ & Hcase).
  rewrite Heq in *.
  assert (same_setup h h1) as Hs1.
  { destruct Hcase as [(_ & _ & _ & _ & ->) | (_ & _ & _ & _ & ->)];
      [apply same_setup_refl|apply same_setup_schedule, same_setup_refl]. }
  destruct rest as [|next rest'].
  - do 2 eexists. split; [reflexivity|].
    eapply same_setup_trans; [exact Hs1|apply await_setup].
  - destruct (IH st1 (await (during next) h1)) as (st2 & h2 & Hrun & Hs2).
    + discriminate.
    + rewrite Hall, Hcount. cbn [length]. lia.
    + exists st2, h2. split; [exact Hrun|].
      eapply same_setup_trans; [exact Hs1|].
      eapply same_setup_trans; [apply await_setup|exact Hs2].
Qed.

(** C5 (amended). Accumulation completeness: for every session with the
    transition enabled that ingested every chunk of a non-empty stream,
    decoded at least one sample and still had its audio context when the
    stream signalled completion, the call returns normally and the
    accumulated buffer built at that moment is the in-order concatenation of
    all decoded non-empty chunks (the scheduled ones), which together with
    the leftover are the input bytes; its sample count is the sum of the
    sample counts of those chunks; it is handed to the encoder exactly once
    in the call; and the reported total duration is its sample count over
    its sample rate. *)
Theorem accumulation_completeness (s : stream num) (h : hook num) :
  enableTransition h = true ->
  deliveries s <> [] ->
  ingested (locals (streamAudio s h)) = length (deliveries s) ->
  concat (allBuffers (locals (streamAudio s h))) <> [] ->
  audioContext (webAudio (final (streamAudio s h))) <> None ->
  raised (streamAudio s h) = None /\
  exists complete,
    originalBuffer (webAudio (final (streamAudio s h))) = Some complete /\
    ab_data complete = concat (allBuffers (locals (streamAudio s h))) /\
    allBuffers (locals (streamAudio s h))
    = map (fun entry => ab_data (snd entry))
          (scheduled (locals (streamAudio s h))) /\
    Forall (fun buffer => buffer <> []) (allBuffers (locals (streamAudio s h))) /\
    buffer_bytes (ab_data complete) ++ leftover (locals (streamAudio s h))
    = concat (map (@value num) (deliveries s)) /\
    length (ab_data complete)
    = list_sum (map (@length sample) (allBuffers (locals (streamAudio s h)))) /\
    duration (final (streamAudio s h))
    = num_div (num_of_Z (Z.of_nat (length (ab_data complete))))
              (ab_sampleRate complete) /\
    wav_calls (calls (final (streamAudio s h))) = S (wav_calls (calls h)).
Proof.
  intros Hen Hds Hall Hsamples Hctx.
  assert (Hbytes : session_bytes (locals (streamAudio s h))
                   = concat (map (@value num) (deliveries s))).
  { destruct (streamAudio_bytes s h) as (k & Hk & _ & Hb).
    rewrite Hall in Hk. subst k. now rewrite firstn_all in Hb. }
  unfold session_bytes in Hbytes.
  destruct (streamAudio_schedule s h) as (_ & _ & Hf & Hmap).
  revert Hall Hsamples Hctx Hbytes Hf Hmap.
  destruct (streamAudio_unfold s h) as (h3 & Hs3 & ->).
  match goal with
  | |- context [ingest ?ds ?cl ?st0 h3] =>
      intros Hall;
      destruct (ingest_complete ds cl st0 h3 Hds Hall) as (st1 & h4 & Hrun & Hs4)
  end.
  rewrite Hrun in *. rewrite locals_on_done in *.
  pose proof (same_setup_trans _ _ _ Hs3 Hs4) as (Hen4 & Hwav4 & _).
  unfold on_done in *. rewrite Hen4, Hen in *.
  intros Hsamples Hctx Hbytes Hf Hmap.
  destruct (audioContext (webAudio h4)) as [ctx|] eqn:Hctx4.
  - destruct (finalize_spec st1 h4 ctx Hctx4 Hsamples) as (h5 & Hfin & Horig & Hdur & Hwav).
    rewrite Hfin in *. cbn [raised final settled].
    split; [reflexivity|]. eexists. split; [exact Horig|].
    cbn [ab_data ab_sampleRate]. split; [reflexivity|].
    split; [now rewrite Hmap|]. split.
    { rewrite <- Hmap. rewrite Forall_forall in *. intros b Hin.
      apply in_map_iff in Hin. destruct Hin as (entry & <- & Hin).
      apply (Hf entry Hin). }
    split; [exact Hbytes|]. split.
    { now rewrite <- totalLength_concat, totalLength_sum. }
    split; [exact Hdur|]. rewrite Hwav, Hwav4. reflexivity.
  - exfalso. unfold finalize in Hctx. rewrite Hctx4 in Hctx.
    cbn [final rejected] in Hctx. congruence.
Qed.

(** ** stop (C8) *)

Lemma stop_returns (h : hook num) :
  exists h', stop h = Returned h' /\ isPlaying h' = false.
Proof.
  run_callbacks; unfold updatePlayingState;
    (eexists; split; [reflexivity|reflexivity]).
Qed.

(** C8. Idempotent stop: any number of calls of [stop] in immediate
    succession, from any state of the hook (with or without active
    handles), returns without raising, and after each call the play-state is
    false; a second call changes nothing but the record of notifications;
    handles that already played to their end make no difference to what
    stopping the stream does. *)
Theorem stop_is_idempotent :
  (forall (h : hook num) (n : nat),
     exists h', run_events (repeat (CallStop (num := num)) n) h = Returned h' /\
                (0 < n -> isPlaying h' = false)) /\
  (forall h h1 : hook num,
     stop h = Returned h1 ->
     exists h2, stop h1 = Returned h2 /\ same_but_calls h1 h2) /\
  (forall (h : hook num) (i : nat),
     stopStream
       (set_webAudio
          (set_activeSources (mark_ended i (activeSources (webAudio h)))
                             (webAudio h)) h)
     = stopStream h).
Proof.
  split; [|split].
  - intros h n. revert h. induction n as [|n IH]; intros h.
    + exists h. split; [reflexivity|lia].
    + cbn [repeat run_events apply_event].
      destruct (stop_returns h) as (h1 & -> & Hp). cbn [bind].
      destruct (IH h1) as (h2 & Hr & Hp2). exists h2. split; [exact Hr|].
      intros _. destruct n as [|n].
      * cbn in Hr. injection Hr as <-. exact Hp.
      * apply Hp2. lia.
  - intros h h1. unfold stop, stop_closure.
    destruct (isAudioTransitioned h) eqn:Ht;
      destruct (audioRef h) as [el|] eqn:Href;
      unfold stopAudio; rewrite ?stopStream_eq, ?Href; cbn [bind];
      intros Hs; injection Hs as <-; cbn;
      rewrite ?Ht, ?Href, ?stopStream_eq; cbn;
      (eexists; split; [reflexivity|]);
      unfold same_but_calls; cbn; rewrite ?Href; auto 10.
  - intros h i. rewrite !stopStream_eq. reflexivity.
Qed.

(** ** rewind (C9) *)


(** ** The transition state (C4) *)

Lemma event_keeps_transitioned (e : event num) (h h' : hook num) :
  is_new_stream e = false ->
  isAudioTransitioned h = true ->
  apply_event e h = Returned h' ->
  isAudioTransitioned h' = true.
Proof.
  intros Hnew Ht.
  destruct e; try discriminate; run_callbacks;
    intros Hr; injection Hr as <-; cbn; congruence.
Qed.

Lemma transitions_into_transitioned (evs : list (event num)) :
  forall h : hook num,
    forallb (fun e => negb (is_new_stream e)) evs = true ->
    isAudioTransitioned h = true ->
    transitions_into evs h = 0.
Proof.
  induction evs as [|e rest IH]; intros h Hevs Ht; [reflexivity|].
  cbn [forallb] in Hevs. apply andb_prop in Hevs. destruct Hevs as (He & Hrest).
  apply negb_true_iff in He.
  cbn [transitions_into].
  destruct (apply_event e h) as [h'|] eqn:Hr; [|reflexivity].
  rewrite Ht. cbn [negb andb]. cbn [Nat.add].
  apply IH; [exact Hrest|]. eapply event_keeps_transitioned; eassumption.
Qed.

(** C4. Transition exactly-once and terminality: along any run of events
    that contains no new streaming call the hook enters [Transitioned] at
    most once; no call, no automatic event, and no step of the ingestion
    loop takes it out of [Transitioned]; and a new streaming call returns
    and leaves the hook in [Streaming] with the ready flag cleared. *)
Theorem transitioned_once_and_terminal :
  (forall (evs : list (event num)) (h : hook num),
     forallb (fun e => negb (is_new_stream e)) evs = true ->
     transitions_into evs h <= 1) /\
  (forall (e : event num) (h h' : hook num),
     is_new_stream e = false ->
     transitionState h = Transitioned ->
     apply_event e h = Returned h' ->
     transitionState h' = Transitioned) /\
  (forall ctx chunk (st st1 : ingestion num) (h h1 : hook num),
     ingest_chunk ctx chunk st h = Returned (st1, h1) ->
     transitionState h1 = transitionState h) /\
  (forall (st : ingestion num) (h : hook num),
     transitionState (final (on_done st h)) = transitionState h) /\
  (forall h : hook num,
     exists h1, streamAudio_begin h = Returned h1 /\
                transitionState h1 = Streaming /\ isAudioReady h1 = false).
Proof.
  split; [|split; [|split; [|split]]].
  - induction evs as [|e rest IH]; intros h Hevs; [cbn; lia|].
    cbn [transitions_into].
    destruct (apply_event e h) as [h'|] eqn:Hr; [|lia].
    pose proof Hevs as Hall.
    cbn [forallb] in Hevs. apply andb_prop in Hevs. destruct Hevs as (He & Hrest).
    destruct (isAudioTransitioned h) eqn:Ht.
    + cbn [negb andb Nat.add]. apply IH. exact Hrest.
    + destruct (isAudioTransitioned h') eqn:Ht'; cbn [negb andb].
      * rewrite (transitions_into_transitioned rest h' Hrest Ht'). lia.
      * cbn [Nat.add]. apply IH. exact Hrest.
  - intros e h h' Hnew Hst Hr. unfold transitionState in *.
    destruct (isAudioTransitioned h) eqn:Ht;
      [|destruct (isAudioReady h); discriminate].
    now rewrite (event_keeps_transitioned e h h' Hnew Ht Hr).
  - intros ctx chunk st st1 h h1 Hrun.
    destruct (ingest_chunk_spec ctx chunk st h) as (st' & h' & Heq & _ & _ & Hcase).
    rewrite Hrun in Heq. injection Heq as <- <-.
    destruct Hcase as [(_ & _ & _ & _ & ->) | (_ & _ & _ & _ & ->)]; reflexivity.
  - intros st h. unfold on_done, finalize.
    destruct (enableTransition h); [|reflexivity].
    destruct (audioContext (webAudio h)) as [ctx|]; [|reflexivity].
    destruct (createBuffer ctx _ _); [|reflexivity].
    cbn [bind final settled].
    unfold setupAudioListeners, setAudioSource, transitionState.
    destruct (audioRef h) eqn:Href; cbn; rewrite ?Href; reflexivity.
  - intros h.
    destruct (streamAudio_begin_returns h) as (h1 & Hb & _ & _ & _ & Hr & Ht).
    exists h1. unfold transitionState. rewrite Hr, Ht. auto.
Qed.

(** ** The transition effect (C3) *)

(** One firing of the effect while the ready flag is set: the buffered
    engine is sought to the published [currentTime], the hook is (or stays)
    transitioned, [onAudioReady] is called, and if the play-state is playing
    the stream is stopped and the buffered engine started; otherwise neither
    engine is started or stopped.  The ready flag stays set. *)
Lemma transition_effect_fires (h : hook num) :
  enableTransition h = true ->
  isAudioReady h = true ->
  exists h',
    transition_effect h = Returned h' /\
    isAudioTransitioned h' = true /\
    isAudioReady h' = true /\
    enableTransition h' = true /\
    currentTime h' = currentTime h /\
    ready_calls (calls h') = S (ready_calls (calls h)) /\
    html5Audio_getCurrentTime h'
    = match audioRef h with Some _ => currentTime h | None => num_zero end /\
    (isPlaying h = true ->
     isPlaying h' = true /\
     activeSources (webAudio h') = [] /\
     isAudioPlaying (webAudio h') = false /\
     option_map (@el_paused num) (audioRef h')
     = option_map (fun _ => false) (audioRef h)) /\
    (isPlaying h = false ->
     isPlaying h' = false /\
     webAudio h' = webAudio h /\
     option_map (@el_paused num) (audioRef h')
     = option_map (@el_paused num) (audioRef h)).
Proof.
  intros Hen Hready. unfold transition_effect. rewrite Hen, Hready. cbn [negb].
  unfold html5Audio_setCurrentTime, html5Audio_getCurrentTime, playAudio.
  destruct (isPlaying h) eqn:Hp; destruct (audioRef h) as [el|] eqn:Href;
    rewrite ?stopStream_eq; cbn [bind]; cbn; rewrite ?Href; cbn;
    (eexists; split; [reflexivity|]); cbn; rewrite ?Href; cbn;
    unfold ready_calls; rewrite ?filter_app, ?length_app; cbn;
    repeat split; try assumption; try reflexivity; try discriminate; try lia.
Qed.

(** Every further commit fires it again. *)
Lemma commits_repeat_handoff (n : nat) :
  forall h : hook num,
    enableTransition h = true ->
    isAudioReady h = true ->
    exists h',
      run_events (repeat (Commit (num := num)) n) h = Returned h' /\
      ready_calls (calls h') = ready_calls (calls h) + n.
Proof.
  induction n as [|n IH]; intros h Hen Hready.
  - exists h. split; [reflexivity|lia].
  - destruct (transition_effect_fires h Hen Hready)
      as (h1 & Hr & _ & Hready1 & Hen1 & _ & Hcalls & _).
    destruct (IH h1 Hen1 Hready1) as (h2 & Hr2 & Hcalls2).
    exists h2. cbn [repeat run_events apply_event]. rewrite Hr. cbn [bind].
    split; [exact Hr2|lia].
Qed.

(** C3 (amended). Transition handoff sequence: when the transition from
    Ready fires, one run of the effect performs the whole sequence: the
    position is the [currentTime] the hook has published (the last sample
    the time effect took, 0 if it took none since the session began), the
    buffered engine is sought to it, the hook becomes Transitioned and
    [onAudioReady] is called; then, if the play-state is playing, the
    streaming engine is stopped (no active source is left and its liveness
    flag is cleared) and the buffered engine is started at that position; if
    it is paused, the streaming engine is left alone and the buffered engine
    is neither started nor paused. *)
Theorem handoff_sequence (h : hook num) :
  enableTransition h = true ->
  transitionState h = Ready ->
  exists h',
    apply_event Commit h = Returned h' /\
    transitionState h' = Transitioned /\
    html5Audio_getCurrentTime h'
    = match audioRef h with Some _ => currentTime h | None => num_zero end /\
    ready_calls (calls h') = S (ready_calls (calls h)) /\
    (isPlaying h = true ->
     isPlaying h' = true /\
     activeSources (webAudio h') = [] /\
     isAudioPlaying (webAudio h') = false /\
     option_map (@el_paused num) (audioRef h')
     = option_map (fun _ => false) (audioRef h)) /\
    (isPlaying h = false ->
     isPlaying h' = false /\
     webAudio h' = webAudio h /\
     option_map (@el_paused num) (audioRef h')
     = option_map (@el_paused num) (audioRef h)).
Proof.
  intros Hen Hstate.
  assert (isAudioReady h = true) as Hready.
  { unfold transitionState in Hstate.
    destruct (isAudioTransitioned h); [discriminate|].
    destruct (isAudioReady h); [reflexivity|discriminate]. }
  destruct (transition_effect_fires h Hen Hready)
    as (h' & Hr & Ht & _ & _ & _ & Hcalls & Hpos & Hplay & Hpause).
  exists h'. cbn [apply_event]. split; [exact Hr|].
  unfold transitionState. rewrite Ht. auto.
Qed.

(** ** stop, pause and play after the transition (C10) *)

(** What the calls themselves do once the hook has transitioned: [stop]
    pauses the buffered engine at 0, [pause] pauses it where it is, [play]
    starts it where it is. *)
Lemma stop_pause_play_calls (h : hook num) (el : audio_element num) :
  isAudioTransitioned h = true ->
  audioRef h = Some el ->
  (exists h', stop h = Returned h' /\
              audioRef h'
              = Some (set_el_currentTime num_zero (set_el_paused true el)) /\
              isPlaying h' = false) /\
  (audioRef (pause h) = Some (set_el_paused true el) /\ isPlaying (pause h) = false) /\
  (audioRef (play h) = Some (set_el_paused false el) /\ isPlaying (play h) = true).
Proof.
  intros Ht Href. unfold stop, stop_closure, pause, play, stopAudio, pauseAudio, playAudio.
  rewrite Ht, Href. cbn [bind].
  split; [eexists; split; [reflexivity|]|]; cbn; auto.
Qed.

(** With the commit that follows [stop], [play] starts the buffered engine
    at the published time. *)
Lemma stop_commit_play (h : hook num) (el : audio_element num) :
  enableTransition h = true ->
  isAudioReady h = true ->
  isAudioTransitioned h = true ->
  audioRef h = Some el ->
  exists h' el',
    run_events [CallStop; Commit; CallPlay] h = Returned h' /\
    audioRef h' = Some el' /\
    el_currentTime el' = currentTime h /\
    el_paused el' = false /\
    isPlaying h' = true.
Proof.
  intros Hen Hready Ht Href.
  cbn [run_events apply_event].
  unfold stop, stop_closure, stopAudio. rewrite Ht, Href. cbn [bind].
  unfold transition_effect, html5Audio_setCurrentTime. cbn.
  rewrite Hen, Hready. cbn.
  unfold play, playAudio. cbn.
  do 2 eexists. split; [reflexivity|]. cbn. auto.
Qed.

(** ** The decoder and the chunk boundaries *)

(** Whole samples followed by fewer than four bytes: the split is unique. *)
Lemma aligned_unique (a : list sample) :
  forall (b : list sample) (l l' : list byte),
    buffer_bytes a ++ l = buffer_bytes b ++ l' ->
    length l < 4 -> length l' < 4 ->
    a = b /\ l = l'.
Proof.
  induction a as [|s a IH]; intros b l l' Heq Hl Hl'.
  - destruct b as [|s' b]; [auto|].
    cbn in Heq. subst l. cbn in Hl. lia.
  - destruct b as [|s' b].
    + cbn in Heq. subst l'. cbn in Hl'. lia.
    + destruct s as [x0 x1 x2 x3], s' as [y0 y1 y2 y3].
      cbn in Heq. injection Heq as -> -> -> -> Heq.
      destruct (IH b l l' Heq Hl Hl') as (-> & ->). auto.
Qed.

Lemma decode_leftover_bound (left chunk : list byte) :
  length (snd (decode left chunk)) < 4.
Proof.
  rewrite decode_leftover. apply Nat.mod_upper_bound. discriminate.
Qed.

(** X1. Delivering a chunk in two pieces decodes the same samples and
    leaves the same leftover as delivering it whole. *)
Theorem decode_split (left a b : list byte) :
  fst (decode left (a ++ b))
  = fst (decode left a) ++ fst (decode (snd (decode left a)) b)
  /\
  snd (decode left (a ++ b)) = snd (decode (snd (decode left a)) b).
Proof.
  apply aligned_unique; try apply decode_leftover_bound.
  rewrite decode_bytes, buffer_bytes_app, <- app_assoc.
  rewrite (decode_bytes (snd (decode left a)) b).
  rewrite (app_assoc (buffer_bytes (fst (decode left a)))), (decode_bytes left a).
  now rewrite <- app_assoc.
Qed.

Lemma streamAudio_leftover_bound (s : stream num) (h : hook num) :
  length (leftover (locals (streamAudio s h))) < 4.
Proof.
  apply streamAudio_invariant
    with (P := fun st => length (leftover st) < 4) (Inv := fun _ => True).
  - intros ctx chunk st h0 st1 h1 _ _ _ Hrun. split; [|exact I].
    destruct (ingest_chunk_spec ctx chunk st h0) as (st' & h' & Heq & _ & Hl & _).
    rewrite Hrun in Heq. injection Heq as <- <-. rewrite Hl.
    apply decode_leftover_bound.
  - auto.
  - intros h1 _. cbn. split; [lia|exact I].
Qed.

(** X2. What a session decodes does not depend on where the chunk
    boundaries fall, nor on the hook or on what happens meanwhile: two
    sessions that ingested every chunk of streams carrying the same bytes
    have decoded the same samples and hold the same leftover. *)
Theorem chunking_independence (s s' : stream num) (h h' : hook num) :
  ingested (locals (streamAudio s h)) = length (deliveries s) ->
  ingested (locals (streamAudio s' h')) = length (deliveries s') ->
  concat (map (@value num) (deliveries s))
  = concat (map (@value num) (deliveries s')) ->
  concat (allBuffers (locals (streamAudio s h)))
  = concat (allBuffers (locals (streamAudio s' h')))
  /\
  leftover (locals (streamAudio s h)) = leftover (locals (streamAudio s' h')).
Proof.
  intros Hall Hall' Hsame.
  destruct (streamAudio_bytes s h) as (k & Hk & _ & Hb).
  destruct (streamAudio_bytes s' h') as (k' & Hk' & _ & Hb').
  rewrite Hall in Hk. rewrite Hall' in Hk'. subst k k'.
  rewrite firstn_all in Hb, Hb'. unfold session_bytes in *.
  apply aligned_unique; try apply streamAudio_leftover_bound.
  congruence.
Qed.

(** ** Sessions that are left alone, stopped, or have nothing to do *)

Lemma mark_ended_entries (srcs : list (source_node num)) :
  forall i, map node_entry (mark_ended i srcs) = map node_entry srcs.
Proof.
  induction srcs as [|src rest IH]; intros i; [destruct i; reflexivity|].
  destruct i as [|i]; cbn; [reflexivity|]. now rewrite IH.
Qed.

Lemma undisturbing_event (e : event num) (h h' : hook num) :
  leaves_stream_alone e = true ->
  isAudioReady h = false ->
  apply_event e h = Returned h' ->
  isAudioReady h' = false /\
  isAudioPlaying (webAudio h') = isAudioPlaying (webAudio h) /\
  map node_entry (activeSources (webAudio h'))
  = map node_entry (activeSources (webAudio h)) /\
  (audioContext (webAudio h) <> None -> audioContext (webAudio h') <> None).
Proof.
  intros Hkind Hready.
  destruct e; try discriminate; run_callbacks;
    intros Hr; injection Hr as <-; cbn; rewrite ?mark_ended_entries;
    repeat split; try congruence; auto.
Qed.

Lemma undisturbing_events (evs : list (event num)) :
  forall h : hook num,
    forallb leaves_stream_alone evs = true ->
    isAudioReady h = false ->
    isAudioReady (await evs h) = false /\
    isAudioPlaying (webAudio (await evs h)) = isAudioPlaying (webAudio h) /\
    map node_entry (activeSources (webAudio (await evs h)))
    = map node_entry (activeSources (webAudio h)) /\
    (audioContext (webAudio h) <> None ->
     audioContext (webAudio (await evs h)) <> None).
Proof.
  induction evs as [|e rest IH]; intros h Hkind Hready.
  - unfold await. cbn. auto.
  - cbn [forallb] in Hkind. apply andb_prop in Hkind. destruct Hkind as (He & Hrest).
    pose proof (run_events_returns (e :: rest) h) as Hrun.
    cbn [run_events] in Hrun.
    destruct (apply_event_setup e h) as (h1 & Hstep & _).
    rewrite Hstep in Hrun. cbn [bind] in Hrun.
    rewrite run_events_returns in Hrun. injection Hrun as Hrun. rewrite <- Hrun.
    destruct (undisturbing_event e h h1 He Hready Hstep) as (Hr1 & Hp1 & Hs1 & Hc1).
    destruct (IH h1 Hrest Hr1) as (Hr2 & Hp2 & Hs2 & Hc2).
    repeat split; try congruence. auto.
Qed.

Lemma finalize_keeps_stream (st : ingestion num) (h h' : hook num) :
  finalize st h = Returned h' ->
  activeSources (webAudio h') = activeSources (webAudio h) /\
  isAudioPlaying (webAudio h') = isAudioPlaying (webAudio h) /\
  audioContext (webAudio h') = audioContext (webAudio h) /\
  isPlaying h' = isPlaying h /\
  isAudioReady h' = isAudioReady h /\
  isAudioTransitioned h' = isAudioTransitioned h /\
  enableTransition h' = enableTransition h.
Proof.
  unfold finalize.
  destruct (audioContext (webAudio h)) as [ctx|] eqn:Hctx; [|discriminate].
  destruct (createBuffer ctx _ _) as [created|]; [|discriminate].
  cbn [bind]. unfold setupAudioListeners, setAudioSource.
  destruct (audioRef h) eqn:Href; cbn; rewrite ?Href; cbn;
    intros Hr; injection Hr as <-; cbn; auto 10.
Qed.

Lemma on_done_keeps_stream (st : ingestion num) (h : hook num) :
  activeSources (webAudio (final (on_done st h))) = activeSources (webAudio h) /\
  isAudioPlaying (webAudio (final (on_done st h))) = isAudioPlaying (webAudio h) /\
  isPlaying (final (on_done st h)) = isPlaying h.
Proof.
  unfold on_done. destruct (enableTransition h); [|cbn; auto].
  destruct (finalize st h) as [h1|] eqn:Hfin; [|cbn; auto].
  destruct (finalize_keeps_stream st h h1 Hfin) as (Hs & Hp & _ & Hi & _).
  cbn. auto.
Qed.

Lemma ingest_undisturbed (ds : list (delivery num)) (cl : list (event num)) :
  forall (st : ingestion num) (h : hook num),
    forallb (fun d => forallb leaves_stream_alone (during d)) ds = true ->
    forallb leaves_stream_alone cl = true ->
    audioContext (webAudio h) <> None ->
    isAudioPlaying (webAudio h) = true ->
    isAudioReady h = false ->
    map node_entry (activeSources (webAudio h)) = scheduled st ->
    ingested (locals (ingest ds cl st h)) = ingested st + length ds /\
    map node_entry (activeSources (webAudio (final (ingest ds cl st h))))
    = scheduled (locals (ingest ds cl st h)) /\
    isAudioPlaying (webAudio (final (ingest ds cl st h))) = true.
Proof.
  induction ds as [|d rest IH]; intros st h Hds Hcl Hctx Hplay Hready Hsrc.
  - cbn. auto.
  - cbn [ingest]. rewrite Hplay.
    destruct (audioContext (webAudio h)) as [ctx|] eqn:Hc; [|congruence].
    destruct (ingest_chunk_spec ctx (value d) st h)
      as (st1 & h1 & Heq & Hcount & _ & Hcase).
    rewrite Heq.
    assert (map node_entry (activeSources (webAudio h1)) = scheduled st1 /\
            isAudioPlaying (webAudio h1) = true /\
            isAudioReady h1 = false /\
            audioContext (webAudio h1) <> None) as (Hsrc1 & Hplay1 & Hready1 & Hctx1).
    { destruct Hcase as [(_ & _ & Hsch & _ & ->) | (_ & _ & Hsch & _ & ->)].
      - rewrite Hsch, Hc. repeat split; auto; discriminate.
      - rewrite Hsch. cbn. rewrite map_app, Hsrc, Hc. cbn.
        repeat split; auto; discriminate. }
    cbn [forallb] in Hds. apply andb_prop in Hds. destruct Hds as (_ & Hrest).
    destruct rest as [|next rest'].
    + destruct (undisturbing_events cl h1 Hcl Hready1) as (_ & Hp2 & Hs2 & _).
      destruct (on_done_keeps_stream st1 (await cl h1)) as (Hs3 & Hp3 & _).
      rewrite locals_on_done, Hs3, Hp3, Hs2, Hp2. cbn [length]. split; [lia|auto].
    + pose proof Hrest as Hrest'.
      cbn [forallb] in Hrest'. apply andb_prop in Hrest'. destruct Hrest' as (Hnext & _).
      destruct (undisturbing_events (during next) h1 Hnext Hready1)
        as (Hr2 & Hp2 & Hs2 & Hc2).
      destruct (IH st1 (await (during next) h1)) as (Hcount2 & Hsrc2 & Hplay2);
        try assumption; try congruence; auto.
      split; [rewrite Hcount2, Hcount; cbn [length]; lia|auto].
Qed.

(** X3. A session is never cut short by [play], [pause], [rewind], commits,
    ticks of the time effect, sources that end or time that passes: if the
    hook has an audio context and nothing else happens during the awaits,
    every chunk of the stream is ingested, the sources the hook holds at the
    end are the scheduled buffers with their start times, in order, and the
    stream is still live. *)
Theorem undisturbed_session_is_complete (s : stream num) (h : hook num) :
  audioContext (webAudio h) <> None ->
  undisturbed s = true ->
  ingested (locals (streamAudio s h)) = length (deliveries s) /\
  map node_entry (activeSources (webAudio (final (streamAudio s h))))
  = scheduled (locals (streamAudio s h)) /\
  isAudioPlaying (webAudio (final (streamAudio s h))) = true.
Proof.
  intros Hctx Hund. unfold undisturbed in Hund.
  apply andb_prop in Hund. destruct Hund as (Hds & Hcl).
  unfold streamAudio.
  destruct (streamAudio_begin_returns h) as (h1 & Hb & _ & Hctx1 & Hplay1 & Hready1 & _).
  rewrite Hb. cbn zeta.
  assert (activeSources (webAudio h1) = []) as Hsrc1.
  { revert Hb. run_callbacks; intros Hr; injection Hr as <-; reflexivity. }
  assert (forallb leaves_stream_alone (first_await s) = true) as Hfirst.
  { unfold first_await. destruct (deliveries s) as [|d rest]; [exact Hcl|].
    cbn [forallb] in Hds. apply andb_prop in Hds. tauto. }
  destruct (undisturbing_events (first_await s) h1 Hfirst Hready1)
    as (Hr2 & Hp2 & Hs2 & Hc2).
  match goal with
  | |- context [ingest ?ds ?cl ?st0 ?h3] =>
      destruct (ingest_undisturbed ds cl st0 h3) as (Hcount & Hsrc & Hplay)
  end; try assumption.
  - cbn. apply Hc2. congruence.
  - cbn. congruence.
  - cbn. rewrite Hs2, Hsrc1. reflexivity.
  - auto.
Qed.

Lemma stopped_stays_stopped (e : event num) (h h' : hook num) :
  is_new_stream e = false ->
  isAudioPlaying (webAudio h) = false ->
  apply_event e h = Returned h' ->
  isAudioPlaying (webAudio h') = false.
Proof.
  intros Hnew Hstopped.
  destruct e; try discriminate; run_callbacks;
    intros Hr; injection Hr as <-; cbn; congruence.
Qed.

Lemma stopped_stays_stopped_events (evs : list (event num)) :
  forall h : hook num,
    forallb (fun e => negb (is_new_stream e)) evs = true ->
    isAudioPlaying (webAudio h) = false ->
    isAudioPlaying (webAudio (await evs h)) = false.
Proof.
  induction evs as [|e rest IH]; intros h Hevs Hstopped; [exact Hstopped|].
  cbn [forallb] in Hevs. apply andb_prop in Hevs. destruct Hevs as (He & Hrest).
  apply negb_true_iff in He.
  pose proof (run_events_returns (e :: rest) h) as Hrun.
  cbn [run_events] in Hrun.
  destruct (apply_event_setup e h) as (h1 & Hstep & _).
  rewrite Hstep in Hrun. cbn [bind] in Hrun.
  rewrite run_events_returns in Hrun. injection Hrun as Hrun. rewrite <- Hrun.
  apply IH; [exact Hrest|]. eapply stopped_stays_stopped; eassumption.
Qed.

Lemma stop_ends_stream (h h' : hook num) :
  isAudioTransitioned h = false ->
  stop h = Returned h' ->
  isAudioPlaying (webAudio h') = false /\
  activeSources (webAudio h') = [] /\
  isPlaying h' = false.
Proof.
  intros Ht. unfold stop, stop_closure. rewrite Ht, stopStream_eq. cbn [bind].
  intros Hr. injection Hr as <-. cbn. auto.
Qed.


Lemma event_keeps_accumulated (e : event num) (h h' : hook num) :
  apply_event e h = Returned h' ->
  duration h' = duration h /\
  (originalBuffer (webAudio h) = None -> originalBuffer (webAudio h') = None).
Proof.
  destruct e; run_callbacks; intros Hr; injection Hr as <-; cbn; auto.
Qed.

Lemma events_keep_accumulated (evs : list (event num)) :
  forall h : hook num,
    duration (await evs h) = duration h /\
    (originalBuffer (webAudio h) = None ->
     originalBuffer (webAudio (await evs h)) = None).
Proof.
  induction evs as [|e rest IH]; intros h; [unfold await; cbn; auto|].
  pose proof (run_events_returns (e :: rest) h) as Hrun.
  cbn [run_events] in Hrun.
  destruct (apply_event_setup e h) as (h1 & Hstep & _).
  rewrite Hstep in Hrun. cbn [bind] in Hrun.
  rewrite run_events_returns in Hrun. injection Hrun as Hrun. rewrite <- Hrun.
  destruct (event_keeps_accumulated e h h1 Hstep) as (Hd1 & Ho1).
  destruct (IH h1) as (Hd2 & Ho2). split; [congruence|auto].
Qed.

Lemma streamAudio_begin_clears (h h1 : hook num) :
  streamAudio_begin h = Returned h1 ->
  originalBuffer (webAudio h1) = None /\
  activeSources (webAudio h1) = [] /\
  duration h1 = duration h /\
  isPlaying h1 = false.
Proof.
  run_callbacks; intros Hr; injection Hr as <-; cbn; auto.
Qed.

(** X5. A call of [streamAudio] that has nothing to ingest, because the
    stream ends at its first read or because the hook has no audio context,
    returns without raising and without scheduling, decoding or
    accumulating anything; it leaves [isPlaying] set to true, clears the
    stored buffer, and leaves the reported duration as it was before the
    call. *)
Theorem nothing_to_ingest (s : stream num) (h : hook num) :
  deliveries s = [] \/ audioContext (webAudio h) = None ->
  raised (streamAudio s h) = None /\
  ingested (locals (streamAudio s h)) = 0 /\
  scheduled (locals (streamAudio s h)) = [] /\
  allBuffers (locals (streamAudio s h)) = [] /\
  isPlaying (final (streamAudio s h)) = true /\
  originalBuffer (webAudio (final (streamAudio s h))) = None /\
  duration (final (streamAudio s h)) = duration h /\
  wav_calls (calls (final (streamAudio s h))) = wav_calls (calls h).
Proof.
  intros Hcase. unfold streamAudio.
  destruct (streamAudio_begin_returns h) as (h1 & Hb & (_ & Hw1 & _) & Hctx1 & _).
  rewrite Hb. cbn zeta.
  destruct (streamAudio_begin_clears h h1 Hb) as (Horig & _ & Hdur & _).
  destruct (events_keep_accumulated (first_await s) h1) as (Hdur2 & Horig2).
  pose proof (await_setup (first_await s) h1) as (_ & Hw2 & Hs2).
  set (h3 := updatePlayingState true (await (first_await s) h1)) in *.
  match goal with
  | |- context [ingest ?ds ?cl ?st0 h3] =>
      assert (ingest ds cl st0 h3 = settled st0 h3) as ->
  end.
  { destruct Hcase as [-> | Hnone]; [reflexivity|].
    destruct (deliveries s) as [|d rest]; [reflexivity|].
    cbn [ingest].
    destruct (audioContext (webAudio h3)) as [c|] eqn:Hc3; [|reflexivity].
    exfalso. destruct (Hs2 c) as (c1 & Hc1 & _); [exact Hc3|]. congruence. }
  cbn. repeat split; auto.
  - congruence.
  - unfold wav_calls in *. rewrite filter_app, length_app. cbn. lia.
Qed.

Lemma no_source_appears (e : event num) (h h' : hook num) :
  activeSources (webAudio h) = [] ->
  apply_event e h = Returned h' ->
  activeSources (webAudio h') = [].
Proof.
  intros Hnone.
  destruct e; run_callbacks; intros Hr; injection Hr as <-; cbn;
    rewrite ?Hnone; try reflexivity; try assumption.
  now destruct i.
Qed.

Lemma no_source_appears_events (evs : list (event num)) :
  forall h : hook num,
    activeSources (webAudio h) = [] ->
    activeSources (webAudio (await evs h)) = [].
Proof.
  induction evs as [|e rest IH]; intros h Hnone; [exact Hnone|].
  pose proof (run_events_returns (e :: rest) h) as Hrun.
  cbn [run_events] in Hrun.
  destruct (apply_event_setup e h) as (h1 & Hstep & _).
  rewrite Hstep in Hrun. cbn [bind] in Hrun.
  rewrite run_events_returns in Hrun. injection Hrun as Hrun. rewrite <- Hrun.
  apply IH. eapply no_source_appears; eassumption.
Qed.


(** ** What holds through the life of a hook *)

Lemma await_invariant (Inv : hook num -> Prop) :
  (forall e h h', Inv h -> apply_event e h = Returned h' -> Inv h') ->
  forall evs h, Inv h -> Inv (await evs h).
Proof.
  intros Hev evs. induction evs as [|e rest IH]; intros h HI; [exact HI|].
  pose proof (run_events_returns (e :: rest) h) as Hrun.
  cbn [run_events] in Hrun.
  destruct (apply_event_setup e h) as (h1 & Hstep & _).
  rewrite Hstep in Hrun. cbn [bind] in Hrun.
  rewrite run_events_returns in Hrun. injection Hrun as Hrun. rewrite <- Hrun.
  apply IH. eapply Hev; eassumption.
Qed.

(** An invariant of the hook that events, scheduling a buffer on a live
    stream with a context, and the completion branch keep holds when the
    loop is left. *)
Lemma ingest_final_invariant (Inv : hook num -> Prop) :
  (forall e h h', Inv h -> apply_event e h = Returned h' -> Inv h') ->
  (forall b t h,
     Inv h -> audioContext (webAudio h) <> None ->
     isAudioPlaying (webAudio h) = true -> ab_data b <> [] ->
     Inv (snd (createAndScheduleAudioSource b t h))) ->
  (forall st h h',
     Inv h -> enableTransition h = true -> finalize st h = Returned h' -> Inv h') ->
  forall ds cl st h, Inv h -> Inv (final (ingest ds cl st h)).
Proof.
  intros Hev Hsched Hfin ds cl.
  induction ds as [|d rest IH]; intros st h HI; [exact HI|].
  cbn [ingest].
  destruct (audioContext (webAudio h)) as [ctx|] eqn:Hctx; [|exact HI].
  destruct (isAudioPlaying (webAudio h)) eqn:Hplay; [|exact HI].
  destruct (ingest_chunk_spec ctx (value d) st h) as (st1 & h1 & Heq & _ & _ & Hcase).
  rewrite Heq.
  assert (Inv h1) as HI1.
  { destruct Hcase as [(_ & _ & _ & _ & ->) | (Hne & _ & _ & _ & ->)]; [exact HI|].
    apply Hsched; try assumption. congruence. }
  destruct rest as [|next rest'].
  - pose proof (await_invariant Inv Hev cl h1 HI1) as HI2.
    unfold on_done.
    destruct (enableTransition (await cl h1)) eqn:Hen; [|exact HI2].
    destruct (finalize st1 (await cl h1)) as [h3|] eqn:Hf; [|exact HI2].
    cbn. eapply Hfin; eassumption.
  - apply IH. apply await_invariant; assumption.
Qed.

Lemma life_invariant (Inv : hook num -> Prop) :
  (forall e h h', Inv h -> apply_event e h = Returned h' -> Inv h') ->
  (forall b t h,
     Inv h -> audioContext (webAudio h) <> None ->
     isAudioPlaying (webAudio h) = true -> ab_data b <> [] ->
     Inv (snd (createAndScheduleAudioSource b t h))) ->
  (forall st h h',
     Inv h -> enableTransition h = true -> finalize st h = Returned h' -> Inv h') ->
  (forall h, Inv h -> Inv (updatePlayingState true h)) ->
  forall acts h, Inv h -> Inv (life acts h).
Proof.
  intros Hev Hsched Hfin Hplay acts.
  induction acts as [|a rest IH]; intros h HI; [exact HI|].
  cbn [life fold_left]. apply IH. destruct a as [e|s]; cbn [perform].
  - apply await_invariant; assumption.
  - unfold streamAudio.
    destruct (streamAudio_begin_returns h) as (h1 & Hb & _).
    rewrite Hb. cbn zeta.
    apply ingest_final_invariant; try assumption.
    apply Hplay. apply await_invariant; [assumption|].
    apply (Hev CallStreamAudio h h1 HI). exact Hb.
Qed.

Lemma mark_ended_nil (i : nat) : mark_ended i (@nil (source_node num)) = [].
Proof. now destruct i. Qed.

Ltac close_consistent Ht Hs Hb :=
  intros; cbn in *;
  try discriminate;
  try match goal with
      | Hob : originalBuffer _ = Some ?b |- _ => destruct (Hb b Hob) as (? & ? & ?)
      end;
  repeat match goal with
         | Hel : Some _ = Some _ |- _ => injection Hel as <-
         end;
  cbn;
  first [ assumption | reflexivity | apply Ht; congruence
        | apply negb_false_iff; assumption
        | rewrite Hs by assumption; apply mark_ended_nil
        | apply Hs; assumption | solve [eauto] | congruence
        | solve [intuition congruence]
        | match goal with
          | Hsrc : forall el, _ -> el_src el = _ |- _ => apply Hsrc; congruence
          end ].

Lemma event_keeps_consistent (e : event num) (h h' : hook num) :
  consistent h -> apply_event e h = Returned h' -> consistent h'.
Proof.
  unfold consistent. intros (Ht & Hs & Hb).
  destruct e; run_callbacks; intros Hr; injection Hr as <-; cbn.
  all: repeat split; close_consistent Ht Hs Hb.
Qed.

Lemma finalize_returns (st : ingestion num) (h h' : hook num) :
  finalize st h = Returned h' ->
  exists ctx,
    audioContext (webAudio h) = Some ctx /\
    concat (allBuffers st) <> [] /\
    let complete :=
      {| ab_data := concat (allBuffers st); ab_sampleRate := ctx_sampleRate ctx |} in
    originalBuffer (webAudio h') = Some complete /\
    duration h' = ab_duration complete /\
    currentTime h' = currentTime h /\
    calls h' = calls h ++ [AudioBufferToWav complete] /\
    audioRef h'
    = option_map (fun el => set_el_listeners true true (set_el_src (Some complete) el))
                 (audioRef h).
Proof.
  unfold finalize.
  destruct (audioContext (webAudio h)) as [ctx|] eqn:Hctx; [|discriminate].
  rewrite fill_concat.
  destruct (concat (allBuffers st)) as [|x rest] eqn:Hcat; [discriminate|].
  rewrite <- Hcat.
  assert (concat (allBuffers st) <> []) as Hne by (rewrite Hcat; discriminate).
  destruct (copyToChannel_created ctx (concat (allBuffers st)) (ctx_sampleRate ctx) Hne)
    as (created & Hc & Hcopy).
  rewrite Hc. cbn [bind]. rewrite Hcopy.
  intros Hr. injection Hr as <-. exists ctx. split; [reflexivity|]. split; [exact Hne|].
  cbn zeta. unfold setupAudioListeners, setAudioSource.
  destruct (audioRef h) eqn:Href; cbn; rewrite ?Href; cbn; auto 10.
Qed.

Lemma finalize_keeps_consistent (st : ingestion num) (h h' : hook num) :
  consistent h -> finalize st h = Returned h' -> consistent h'.
Proof.
  intros (Ht & Hs & Hb) Hfin.
  destruct (finalize_keeps_stream st h h' Hfin) as (Hsrc & Hplay & _ & _ & Hr & Htr & Hen).
  destruct (finalize_returns st h h' Hfin)
    as (ctx & _ & Hne & Horig & Hdur & _ & _ & Href).
  unfold consistent. rewrite Hsrc, Hplay, Hr, Htr, Hen.
  split; [exact Ht|]. split; [exact Hs|].
  intros b Hob. rewrite Horig in Hob. injection Hob as <-.
  split; [exact Hne|]. split; [exact Hdur|].
  intros el Hel. rewrite Href in Hel.
  destruct (audioRef h); [|discriminate]. cbn in Hel. injection Hel as <-. reflexivity.
Qed.

Lemma mounted_consistent (sampleRate : num) (transition : bool) (clock : num) :
  consistent (mounted sampleRate transition clock).
Proof. unfold consistent. cbn. repeat split; discriminate. Qed.

Lemma life_consistent (acts : list (action num)) (h : hook num) :
  consistent h -> consistent (life acts h).
Proof.
  apply life_invariant.
  - apply event_keeps_consistent.
  - intros b t h0 (Ht & Hs & Hb) _ Hplay _. unfold consistent. cbn.
    split; [exact Ht|]. split; [congruence|exact Hb].
  - intros st h0 h' Hc _ Hfin. eapply finalize_keeps_consistent; eassumption.
  - intros h0 Hc. exact Hc.
Qed.

(** X7. Through the whole life of a mounted hook (any sequence of events
    and of calls of [streamAudio]) the hook is transitioned only while the
    ready flag is set and the transition is enabled: whenever [rewind] has
    an effect, [isRewindEnabled] is true. *)
Theorem transitioned_only_when_ready (acts : list (action num))
  (sampleRate : num) (transition : bool) (clock : num) :
  isAudioTransitioned (life acts (mounted sampleRate transition clock)) = true ->
  isAudioReady (life acts (mounted sampleRate transition clock)) = true /\
  enableTransition (life acts (mounted sampleRate transition clock)) = true.
Proof.
  apply (life_consistent acts _ (mounted_consistent sampleRate transition clock)).
Qed.

(** X8. Through the whole life of a mounted hook, a stream that is not
    live holds no active source: whatever cleared the liveness flag has
    also stopped and released every scheduled source. *)
Theorem dead_stream_holds_no_source (acts : list (action num))
  (sampleRate : num) (transition : bool) (clock : num) :
  isAudioPlaying (webAudio (life acts (mounted sampleRate transition clock))) = false ->
  activeSources (webAudio (life acts (mounted sampleRate transition clock))) = [].
Proof.
  apply (life_consistent acts _ (mounted_consistent sampleRate transition clock)).
Qed.

(** X9. Through the whole life of a mounted hook, a stored accumulated
    buffer is never empty, the reported duration is its duration, and it is
    the resource the audio element was given, if there is an element. *)
Theorem stored_buffer_is_reported (acts : list (action num))
  (sampleRate : num) (transition : bool) (clock : num) (b : audio_buffer num) :
  originalBuffer (webAudio (life acts (mounted sampleRate transition clock))) = Some b ->
  ab_data b <> [] /\
  duration (life acts (mounted sampleRate transition clock)) = ab_duration b /\
  forall el,
    audioRef (life acts (mounted sampleRate transition clock)) = Some el ->
    el_src el = Some b.
Proof.
  apply (life_consistent acts _ (mounted_consistent sampleRate transition clock)).
Qed.

Lemma event_keeps_never_ready (e : event num) (h h' : hook num) :
  never_ready h -> apply_event e h = Returned h' -> never_ready h'.
Proof.
  unfold never_ready. intros (Hen & Hr & Ht & Hl).
  destruct e; run_callbacks; intros Hrun; injection Hrun as <-; cbn in *;
    repeat split; intros; cbn in *;
      repeat match goal with
             | Hel : Some _ = Some _ |- _ => injection Hel as <-
             end;
      cbn; try congruence; try solve [eauto];
      try (match goal with
           | Ha : audioRef h = Some ?a |- _ => specialize (Hl a Ha)
           end; cbn in *; congruence).
Qed.

(** X10. With the transition disabled a mounted hook stays in the state
    Streaming through its whole life, whatever streams it is given and
    whatever happens: it never becomes ready or transitioned, so [rewind]
    never does anything. *)
Theorem disabled_transition_never_happens (acts : list (action num))
  (sampleRate clock : num) :
  transitionState (life acts (mounted sampleRate false clock)) = Streaming /\
  isAudioReady (life acts (mounted sampleRate false clock)) = false /\
  forall seconds,
    rewind seconds (life acts (mounted sampleRate false clock))
    = life acts (mounted sampleRate false clock).
Proof.
  assert (never_ready (life acts (mounted sampleRate false clock)))
    as (_ & Hr & Ht & _).
  { apply life_invariant.
    - apply event_keeps_never_ready.
    - intros b t h Hn _ _ _. exact Hn.
    - intros st h h' (Hen & _) Hen'. congruence.
    - intros h Hn. exact Hn.
    - unfold never_ready. cbn. repeat split. intros el Hel.
      injection Hel as <-. reflexivity. }
  unfold transitionState, rewind, rewind_closure. rewrite Ht, Hr. auto.
Qed.

Lemma event_keeps_torn_down (e : event num) (h h' : hook num) :
  torn_down h -> apply_event e h = Returned h' -> torn_down h'.
Proof.
  unfold torn_down. intros (Hc & Ha & Hs).
  destruct e; run_callbacks; intros Hrun; injection Hrun as <-; cbn in *;
    repeat split; try congruence; try (rewrite Hs; apply mark_ended_nil).
Qed.

(** X11. Unmounting is final: after [cleanup] the hook has no audio
    context, no audio element and no active source, and nothing that
    happens later, not even a call of [streamAudio], brings one back; both
    engines report time 0 from then on. *)
Theorem unmount_is_final (acts : list (action num)) (h : hook num) :
  torn_down (life (Happens Unmount :: acts) h) /\
  webAudio_getCurrentTime (life (Happens Unmount :: acts) h) = num_zero /\
  html5Audio_getCurrentTime (life (Happens Unmount :: acts) h) = num_zero.
Proof.
  assert (torn_down (life (Happens Unmount :: acts) h)) as Hdown.
  { change (torn_down (life acts (await [Unmount] h))). apply life_invariant.
    - apply event_keeps_torn_down.
    - intros b t h0 (Hc & _) Hctx. congruence.
    - intros st h0 h' (Hc & _) _ Hfin. unfold finalize in Hfin.
      rewrite Hc in Hfin. discriminate.
    - intros h0 Hd. exact Hd.
    - pose proof (run_events_returns [Unmount] h) as Hrun.
      cbn [run_events apply_event] in Hrun. revert Hrun.
      unfold cleanup, webAudio_cleanup, html5Audio_cleanup.
      rewrite stopStream_eq. cbn [bind]. intros Hrun. injection Hrun as <-.
      unfold torn_down. cbn. auto. }
  split; [exact Hdown|]. destruct Hdown as (Hc & Ha & _).
  unfold webAudio_getCurrentTime, html5Audio_getCurrentTime.
  rewrite Hc, Ha. auto.
Qed.

(** ** From the end of the stream to the buffered engine *)

Lemma canplay_then_commit (h : hook num) (el : audio_element num) :
  enableTransition h = true ->
  audioRef h = Some el ->
  el_canplay_once el = true ->
  exists h',
    run_events [CanPlay; Commit] h = Returned h' /\
    transitionState h' = Transitioned /\
    audioRef h'
    = Some (set_el_paused (if isPlaying h then false else el_paused el)
              (set_el_currentTime (currentTime h)
                 (set_el_listeners false (el_ended_listener el) el))) /\
    isPlaying h' = isPlaying h /\
    (isPlaying h = true ->
     activeSources (webAudio h') = [] /\ isAudioPlaying (webAudio h') = false) /\
    (isPlaying h = false -> webAudio h' = webAudio h).
Proof.
  intros Hen Href Hcan.
  cbn [run_events apply_event bind]. unfold canplay. rewrite Href, Hcan.
  unfold transition_effect, html5Audio_setCurrentTime. cbn. rewrite Hen. cbn.
  destruct (isPlaying h) eqn:Hp.
  - rewrite stopStream_eq. cbn [bind]. unfold playAudio. cbn.
    eexists. split; [reflexivity|]. cbn. unfold transitionState. cbn.
    repeat split; auto; discriminate.
  - eexists. split; [reflexivity|]. cbn. unfold transitionState. cbn.
    destruct el; cbn. repeat split; auto; discriminate.
Qed.

(** X12. From the end of the stream to the buffered engine: when a call of
    [streamAudio] with the transition enabled has ingested every chunk of a
    non-empty stream and returned normally, and the hook has an audio
    element, then [canplay] followed by a commit takes the hook to
    Transitioned; the element then holds exactly the accumulated samples and
    stands at the published time, and if the hook was playing the element
    plays and the streaming engine is stopped, while if it was not the
    element is left as it was and the streaming engine is not touched. *)
Theorem completed_session_transitions (s : stream num) (h : hook num)
  (el : audio_element num) :
  enableTransition h = true ->
  deliveries s <> [] ->
  ingested (locals (streamAudio s h)) = length (deliveries s) ->
  raised (streamAudio s h) = None ->
  audioRef (final (streamAudio s h)) = Some el ->
  exists h' el' b,
    run_events [CanPlay; Commit] (final (streamAudio s h)) = Returned h' /\
    transitionState h' = Transitioned /\
    audioRef h' = Some el' /\
    el_src el' = Some b /\
    ab_data b = concat (allBuffers (locals (streamAudio s h))) /\
    originalBuffer (webAudio h') = Some b /\
    el_currentTime el' = currentTime (final (streamAudio s h)) /\
    (isPlaying (final (streamAudio s h)) = true ->
     el_paused el' = false /\ isPlaying h' = true /\
     activeSources (webAudio h') = [] /\ isAudioPlaying (webAudio h') = false) /\
    (isPlaying (final (streamAudio s h)) = false ->
     el_paused el' = el_paused el /\ isPlaying h' = false /\
     webAudio h' = webAudio (final (streamAudio s h))).
Proof.
  intros Hen Hds.
  destruct (streamAudio_unfold s h) as (h3 & Hs3 & ->).
  match goal with
  | |- context [ingest ?ds ?cl ?st0 h3] =>
      intros Hall;
      destruct (ingest_complete ds cl st0 h3 Hds Hall) as (st1 & h4 & Hrun & Hs4)
  end.
  rewrite Hrun. rewrite locals_on_done.
  pose proof (same_setup_trans _ _ _ Hs3 Hs4) as (Hen4 & _ & _).
  unfold on_done. rewrite Hen4, Hen.
  destruct (finalize st1 h4) as [h5|e] eqn:Hfin; [|cbn; discriminate].
  cbn [raised final settled]. intros _ Href.
  destruct (finalize_returns st1 h4 h5 Hfin)
    as (ctx & _ & _ & Horig & _ & _ & _ & Href5).
  destruct (finalize_keeps_stream st1 h4 h5 Hfin) as (_ & _ & _ & _ & _ & _ & Hen5).
  rewrite Href in Href5.
  destruct (audioRef h4) as [el4|] eqn:Href4; [|discriminate].
  cbn in Href5. injection Href5 as ->.
  destruct (canplay_then_commit h5 _ (eq_trans Hen5 (eq_trans Hen4 Hen)) Href eq_refl)
    as (h' & Hr & Hst & Href' & Hp' & Hplay & Hpause).
  exists h'. eexists. eexists.
  split; [exact Hr|]. split; [exact Hst|]. split; [exact Href'|].
  cbn. split; [reflexivity|]. split; [reflexivity|].
  assert (originalBuffer (webAudio h') = originalBuffer (webAudio h5)) as Hob.
  { destruct (isPlaying h5) eqn:Hp5.
    - revert Hr. cbn [run_events apply_event bind]. unfold canplay. rewrite Href.
      cbn. unfold transition_effect. cbn. rewrite Hen5, Hen4, Hen, Hp5. cbn.
      rewrite stopStream_eq. cbn [bind].
      intros Hr. injection Hr as <-. reflexivity.
    - now rewrite (Hpause eq_refl). }
  rewrite Hob, Horig. split; [reflexivity|]. split; [reflexivity|].
  split.
  - intros Hp. rewrite Hp in *. destruct (Hplay eq_refl) as (Hsrc & Hlive).
    auto.
  - intros Hp. rewrite Hp in *. auto.
Qed.

(** ** pause, play and stop put together *)

(** X13. [pause] followed by [play] is a round trip: in a playing hook
    whose active engine is running (the context is there and not suspended
    before the transition, the element is not paused after it), the two
    calls together change nothing but the record of notifications. *)
Theorem pause_play_round_trip (h : hook num) :
  isPlaying h = true ->
  (isAudioTransitioned h = false ->
   exists ctx, audioContext (webAudio h) = Some ctx /\ ctx_suspended ctx = false) ->
  (isAudioTransitioned h = true ->
   forall el, audioRef h = Some el -> el_paused el = false) ->
  same_but_calls h (play (pause h)).
Proof.
  intros Hp Hweb Hel. unfold same_but_calls, play, pause.
  destruct (isAudioTransitioned h) eqn:Ht.
  - unfold pauseAudio, playAudio.
    destruct (audioRef h) as [el|] eqn:Href; cbn; rewrite ?Ht, ?Href; cbn.
    + specialize (Hel eq_refl el eq_refl).
      destruct el; cbn in *. subst. repeat split; auto.
    + rewrite Href. repeat split; auto.
  - destruct (Hweb eq_refl) as (ctx & Hctx & Hsus).
    unfold pauseStream, playStream. rewrite Hctx. cbn. rewrite Ht. cbn.
    destruct (webAudio h) as [c o a p] eqn:Hw. cbn in *. subst c.
    destruct ctx; cbn in *. subst. repeat split; auto.
Qed.


(** ** The suspended context and the unlock listeners *)

(** X15. The audio context is created once: running the context effect
    again, with whatever sample rate, keeps the context the hook already
    has, so a later change of the [sampleRate] option does not reach the
    context; only a hook without a context gets a new one, at the rate of
    that run. *)
Theorem context_is_created_once (u : unlocking num)
  (rate rate' : num) (suspended suspended' : bool) :
  exists ctx,
    audioContext (webAudio (hook_of (context_effect true rate suspended u)))
    = Some ctx /\
    audioContext
      (webAudio (hook_of (context_effect true rate' suspended'
                            (context_effect true rate suspended u))))
    = Some ctx /\
    (audioContext (webAudio (hook_of u)) = None -> ctx_sampleRate ctx = rate) /\
    (forall ctx0, audioContext (webAudio (hook_of u)) = Some ctx0 -> ctx = ctx0).
Proof.
  unfold context_effect, handleStateChange. cbn.
  destruct (audioContext (webAudio (hook_of u))) as [ctx0|] eqn:Hctx; cbn;
    rewrite ?Hctx; cbn; eexists; (split; [reflexivity|]);
    (split; [reflexivity|]); split; try discriminate; auto.
  intros ctx1 H1. now injection H1.
Qed.

Lemma await_one (e : event num) (h h' : hook num) :
  apply_event e h = Returned h' -> await [e] h = h'.
Proof. intros Hr. unfold await. cbn [run_events]. rewrite Hr. reflexivity. Qed.


(** ** Aligned streams, and the handoff that runs again *)

(** X18. Round trip of an aligned stream: when the bytes of a stream are a
    whole number of samples and every chunk was ingested, nothing is left
    over and the decoded samples, written back as bytes, are the stream,
    wherever the chunk boundaries fell. *)
Theorem aligned_stream_round_trip (s : stream num) (h : hook num) :
  ingested (locals (streamAudio s h)) = length (deliveries s) ->
  length (concat (map (@value num) (deliveries s))) mod 4 = 0 ->
  leftover (locals (streamAudio s h)) = [] /\
  buffer_bytes (concat (allBuffers (locals (streamAudio s h))))
  = concat (map (@value num) (deliveries s)).
Proof.
  intros Hall Haligned.
  destruct (streamAudio_bytes s h) as (k & Hk & _ & Hb).
  rewrite Hall in Hk. subst k. rewrite firstn_all in Hb.
  unfold session_bytes in Hb.
  pose proof (streamAudio_leftover_bound s h) as Hbound.
  assert (length (leftover (locals (streamAudio s h))) = 0) as Hzero.
  { rewrite <- Hb, length_app, buffer_bytes_length in Haligned.
    rewrite Nat.add_comm, Nat.mul_comm, Nat.Div0.mod_add in Haligned.
    rewrite Nat.mod_small in Haligned by exact Hbound. exact Haligned. }
  destruct (leftover (locals (streamAudio s h))); [|discriminate].
  rewrite app_nil_r in Hb. auto.
Qed.

(** X19. A rewind made while the buffered engine is paused does not last:
    [rewind] moves the element, but [play] is followed by a commit whose
    transition effect seeks the element to the published time, so playback
    resumes where the time effect last saw it, not at the rewound
    position. *)
Theorem rewind_while_paused_is_lost (seconds : num) (h : hook num)
  (el : audio_element num) :
  enableTransition h = true ->
  isAudioReady h = true ->
  isAudioTransitioned h = true ->
  isPlaying h = false ->
  audioRef h = Some el ->
  html5Audio_getCurrentTime (rewind seconds h)
  = num_max num_zero (num_sub (el_currentTime el) seconds) /\
  exists h' el',
    run_events [CallRewind seconds; CallPlay; Commit] h = Returned h' /\
    audioRef h' = Some el' /\
    el_currentTime el' = currentTime h /\
    el_paused el' = false /\
    isPlaying h' = true.
Proof.
  intros Hen Hready Ht Hp Href.
  cbn [run_events apply_event bind].
  unfold rewind, rewind_closure, rewindAudio. rewrite Ht, Hp, Href.
  unfold html5Audio_getCurrentTime. cbn. split; [reflexivity|].
  unfold play, playAudio. cbn. rewrite Ht. cbn.
  unfold transition_effect, html5Audio_setCurrentTime. cbn.
  rewrite Hen, Hready. cbn. rewrite stopStream_eq. cbn [bind].
  unfold playAudio. cbn.
  do 2 eexists. split; [reflexivity|]. cbn. auto.
Qed.

(** Whether a hook has an audio element. *)
Lemma transition_effect_keeps_element (h h' : hook num) :
  transition_effect h = Returned h' ->
  (audioRef h' = None <-> audioRef h = None).
Proof.
  unfold transition_effect, html5Audio_setCurrentTime, playAudio.
  destruct (enableTransition h); cbn [negb];
    [|intros [= <-]; tauto].
  destruct (isAudioReady h); [|intros [= <-]; tauto].
  destruct (isPlaying h) eqn:Hp; destruct (audioRef h) as [el|] eqn:Href;
    cbn; rewrite ?Hp, ?stopStream_eq; cbn; rewrite ?Href; cbn;
    intros [= <-]; cbn; rewrite ?Href; cbn; split; congruence.
Qed.

Lemma commits_keep_handoff (n : nat) :
  forall h : hook num,
    enableTransition h = true ->
    isAudioReady h = true ->
    exists h',
      run_events (repeat (Commit (num := num)) (S n)) h = Returned h' /\
      ready_calls (calls h') = ready_calls (calls h) + S n /\
      isAudioTransitioned h' = true /\
      isAudioReady h' = true /\
      enableTransition h' = true /\
      currentTime h' = currentTime h /\
      html5Audio_getCurrentTime h'
      = match audioRef h with Some _ => currentTime h | None => num_zero end /\
      (audioRef h' = None <-> audioRef h = None).
Proof.
  induction n as [|n IH]; intros h Hen Hready;
    destruct (transition_effect_fires h Hen Hready)
      as (h1 & Hr & Ht1 & Hready1 & Hen1 & Hct1 & Hcalls1 & Hpos1 & _);
    pose proof (transition_effect_keeps_element h h1 Hr) as Hel1.
  - exists h1. cbn [repeat run_events apply_event]. rewrite Hr. cbn [bind].
    repeat split; try assumption; try tauto. lia.
  - destruct (IH h1 Hen1 Hready1)
      as (h2 & Hr2 & Hcalls2 & Ht2 & Hready2 & Hen2 & Hct2 & Hpos2 & Hel2).
    exists h2. change (repeat Commit (S (S n))) with (Commit (num := num) :: repeat Commit (S n)).
    cbn [run_events apply_event]. rewrite Hr. cbn [bind].
    repeat split; try assumption; try tauto; try lia; try congruence.
    rewrite Hpos2, Hct1.
    destruct (audioRef h) as [el|] eqn:Href; destruct (audioRef h1) as [el1|] eqn:Href1;
      try reflexivity; exfalso; destruct Hel1 as [H1 H2];
      [specialize (H1 eq_refl)|specialize (H2 eq_refl)]; discriminate.
Qed.

(** X20. The handoff runs at every commit: the transition effect has no
    guard on [isAudioTransitioned] and its dependencies change at every
    render, so from a hook whose ready flag is set, [n] commits call
    [onAudioReady] [n] times, and after any positive number of commits the
    hook is transitioned and the audio element, if there is one, sits at the
    published [currentTime], whatever position it had reached. *)
Theorem handoff_runs_at_every_commit (n : nat) (h : hook num) :
  enableTransition h = true ->
  isAudioReady h = true ->
  exists h',
    run_events (repeat (Commit (num := num)) (S n)) h = Returned h' /\
    ready_calls (calls h') = ready_calls (calls h) + S n /\
    isAudioTransitioned h' = true /\
    currentTime h' = currentTime h /\
    html5Audio_getCurrentTime h'
    = match audioRef h with Some _ => currentTime h | None => num_zero end.
Proof.
  intros Hen Hready.
  destruct (commits_keep_handoff n h Hen Hready)
    as (h' & Hr & Hcalls & Ht & _ & _ & Hct & Hpos & _).
  exists h'. auto.
Qed.

End HookFacts.

(** ** Concrete sessions *)

(** Chunks of 3, 5 and 3 bytes: every chunk is ingested, 2 samples are
    decoded and 3 bytes are left over. *)
Lemma byte_conservation_witness :
  ingested (locals (streamAudio (quiet [chunk3; chunk5; chunk3]) fresh))
  = length (deliveries (quiet [chunk3; chunk5; chunk3]))
  /\
  4 * length (concat (allBuffers (locals (streamAudio (quiet [chunk3; chunk5; chunk3]) fresh))))
    + length (leftover (locals (streamAudio (quiet [chunk3; chunk5; chunk3]) fresh)))
  = 11
  /\
  buffer_bytes (concat (allBuffers (locals (streamAudio (quiet [chunk3; chunk5; chunk3]) fresh))))
    ++ leftover (locals (streamAudio (quiet [chunk3; chunk5; chunk3]) fresh))
  = chunk3 ++ chunk5 ++ chunk3.
Proof.
  split; [vm_compute; reflexivity|].
  apply (byte_conservation (quiet [chunk3; chunk5; chunk3]) fresh).
  vm_compute. reflexivity.
Defined.


(** Chunks of 3, 5 and 8 bytes with the clock at 5: two buffers are
    scheduled, the second where the first ends. *)
Lemma scheduling_contiguity_witness :
  exists start_1 b_1 start_2 b_2,
    nth_error (scheduled (locals (streamAudio (quiet [chunk3; chunk5; chunk8]) fresh_at_5))) 0
    = Some (start_1, b_1) /\
    nth_error (scheduled (locals (streamAudio (quiet [chunk3; chunk5; chunk8]) fresh_at_5))) 1
    = Some (start_2, b_2) /\
    start_2 = num_add start_1 (ab_duration b_1) /\
    start_2 = fold_left num_add [ab_duration b_1] (5 # 1)%Q /\
    scheduled (locals (streamAudio (quiet [chunk3; chunk5; chunk8]) fresh_at_5))
    = schedule_of rate24000 (5 # 1)%Q [] [chunk3; chunk5; chunk8].
Proof.
  do 4 eexists.
  split; [vm_compute; reflexivity|].
  split; [vm_compute; reflexivity|].
  split; [|split].
  - eapply (proj1 (scheduling_contiguity (quiet [chunk3; chunk5; chunk8]) fresh_at_5) 0);
      vm_compute; reflexivity.
  - eapply (proj1 (proj1 (proj2 (scheduling_contiguity (quiet [chunk3; chunk5; chunk8]) fresh_at_5))
                     1 _ _ ltac:(vm_compute; reflexivity))).
  - apply (proj2 (proj2 (scheduling_contiguity (quiet [chunk3; chunk5; chunk8]) fresh_at_5))
             {| ctx_currentTime := (5 # 1)%Q; ctx_sampleRate := rate24000;
                ctx_suspended := false |}).
    reflexivity.
Defined.

(** C6 (as stated) fails: with the context clock at 5 when the session
    begins, the single 8-byte chunk is ingested and scheduled once, and its
    start time is 5, not 0. *)
Lemma scenario_A_start_is_not_zero :
  ingested (locals (streamAudio (quiet [chunk8]) fresh_at_5)) = 1 /\
  exists start b,
    scheduled (locals (streamAudio (quiet [chunk8]) fresh_at_5)) = [(start, b)] /\
    length (ab_data b) = 2 /\
    (start == 5 # 1)%Q /\
    ~ (start == 0)%Q.
Proof.
  split; [vm_compute; reflexivity|].
  do 2 eexists. split; [vm_compute; reflexivity|].
  split; [reflexivity|]. split; [reflexivity|].
  intros H. vm_compute in H. discriminate.
Qed.

(** The single chunk [chunk8] with the clock at 5. *)
Lemma scenario_A_witness :
  ingested (locals (streamAudio (quiet [chunk8]) fresh_at_5)) = 1 /\
  exists buffer,
    length buffer = 2 /\
    buffer_bytes buffer = chunk8 /\
    allBuffers (locals (streamAudio (quiet [chunk8]) fresh_at_5)) = [buffer] /\
    leftover (locals (streamAudio (quiet [chunk8]) fresh_at_5)) = [] /\
    scheduled (locals (streamAudio (quiet [chunk8]) fresh_at_5))
    = [((5 # 1)%Q, {| ab_data := buffer; ab_sampleRate := num_of_Z 24000 |})] /\
    ab_duration {| ab_data := buffer; ab_sampleRate := num_of_Z 24000 |}
    = num_div (num_of_Z 2) (num_of_Z 24000).
Proof.
  split; [vm_compute; reflexivity|].
  apply (scenario_A (quiet [chunk8]) fresh_at_5
           {| ctx_currentTime := (5 # 1)%Q; ctx_sampleRate := rate24000;
              ctx_suspended := false |}
           {| during := []; value := chunk8 |});
    vm_compute; reflexivity.
Defined.

(** C5 (as stated) fails: with the transition disabled, a session that
    ingests its only chunk and reads the completion signal has decoded one
    sample, yet no accumulated buffer is built, nothing is handed to the
    encoder, and the reported duration stays 0 instead of 1/24000. *)
Lemma no_accumulation_without_transition :
  ingested (locals (streamAudio (quiet [chunk4]) fresh_no_transition)) = 1 /\
  raised (streamAudio (quiet [chunk4]) fresh_no_transition) = None /\
  length (concat (allBuffers (locals (streamAudio (quiet [chunk4]) fresh_no_transition)))) = 1 /\
  originalBuffer (webAudio (final (streamAudio (quiet [chunk4]) fresh_no_transition))) = None /\
  wav_calls (calls (final (streamAudio (quiet [chunk4]) fresh_no_transition))) = 0 /\
  (duration (final (streamAudio (quiet [chunk4]) fresh_no_transition)) == 0)%Q /\
  ~ (duration (final (streamAudio (quiet [chunk4]) fresh_no_transition))
     == num_div (num_of_Z 1) rate24000)%Q.
Proof.
  repeat split; try (vm_compute; reflexivity).
  intros H. vm_compute in H. discriminate.
Qed.

(** Chunks of 3, 5 and 4 bytes with the transition enabled: three samples
    are accumulated. *)
Lemma accumulation_completeness_witness :
  ingested (locals (streamAudio (quiet [chunk3; chunk5; chunk4]) fresh)) = 3 /\
  raised (streamAudio (quiet [chunk3; chunk5; chunk4]) fresh) = None /\
  exists complete,
    originalBuffer (webAudio (final (streamAudio (quiet [chunk3; chunk5; chunk4]) fresh)))
    = Some complete /\
    length (ab_data complete) = 3 /\
    duration (final (streamAudio (quiet [chunk3; chunk5; chunk4]) fresh))
    = num_div (num_of_Z 3) rate24000 /\
    wav_calls (calls (final (streamAudio (quiet [chunk3; chunk5; chunk4]) fresh))) = 1.
Proof.
  split; [vm_compute; reflexivity|].
  destruct (accumulation_completeness (quiet [chunk3; chunk5; chunk4]) fresh)
    as (Hraised & complete & Horig & Hdata & _ & _ & _ & Hlen & Hdur & Hwav).
  - reflexivity.
  - discriminate.
  - vm_compute. reflexivity.
  - vm_compute. discriminate.
  - vm_compute. discriminate.
  - split; [exact Hraised|]. exists complete.
    split; [exact Horig|].
    assert (length (ab_data complete) = 3) as Hthree
      by (rewrite Hlen; vm_compute; reflexivity).
    split; [exact Hthree|]. split; [|exact Hwav].
    rewrite Hdur, Hthree.
    assert (ab_sampleRate complete = rate24000) as ->; [|reflexivity].
    assert (Some complete
            = originalBuffer (webAudio (final (streamAudio (quiet [chunk3; chunk5; chunk4]) fresh))))
      as Heq by (symmetry; exact Horig).
    vm_compute in Heq. injection Heq as ->. reflexivity.
Defined.

(** C3 (as stated) fails.  The chunk has been ingested and has played for a
    twentieth of a second on the streaming engine when [canplay] arrives;
    no tick of the time effect has happened, so the published time is
    still 0.  The commit performs the handoff: the buffered engine is sought
    to 0, not to the streaming engine's clock, which reads 1/20.  The commit
    that follows (React renders again because [setIsAudioTransitioned(true)]
    changed the state) performs the whole sequence a second time.  Later,
    [pause] leaves the buffered engine at 3/20 and the commit caused by
    [setIsPlaying(false)] runs the sequence once more, seeking the paused
    engine back to the published 1/10. *)
Lemma handoff_as_stated_fails :
  exists h0 h1 h2 h3 h4 : hook Q,
    run_events [Elapse (1 # 20)%Q; CanPlay] after_stream = Returned h0 /\
    transitionState h0 = Ready /\
    isPlaying h0 = true /\
    (webAudio_getCurrentTime h0 == 1 # 20)%Q /\
    apply_event Commit h0 = Returned h1 /\
    transitionState h1 = Transitioned /\
    (html5Audio_getCurrentTime h1 == 0)%Q /\
    ~ (html5Audio_getCurrentTime h1 == webAudio_getCurrentTime h0)%Q /\
    ready_calls (calls h1) = 1 /\
    apply_event Commit h1 = Returned h2 /\
    ready_calls (calls h2) = 2 /\
    run_events (first_tick ++ [Elapse (1 # 20)%Q; CallPause]) h2 = Returned h3 /\
    (html5Audio_getCurrentTime h3 == 3 # 20)%Q /\
    isPlaying h3 = false /\
    apply_event Commit h3 = Returned h4 /\
    (html5Audio_getCurrentTime h4 == 1 # 10)%Q /\
    ready_calls (calls h4) = 4.
Proof.
  do 5 eexists.
  split; [vm_compute; reflexivity|].
  split; [reflexivity|]. split; [reflexivity|]. split; [reflexivity|].
  split; [vm_compute; reflexivity|].
  split; [reflexivity|]. split; [reflexivity|].
  split; [intros H; vm_compute in H; discriminate|].
  split; [reflexivity|].
  split; [vm_compute; reflexivity|]. split; [reflexivity|].
  split; [vm_compute; reflexivity|].
  split; [reflexivity|]. split; [reflexivity|].
  split; [vm_compute; reflexivity|].
  split; reflexivity.
Qed.

(** The handoff that takes place when [canplay] arrives a twentieth of a
    second into playback. *)
Lemma handoff_sequence_witness :
  enableTransition (await [Elapse (1 # 20)%Q; CanPlay] after_stream) = true /\
  transitionState (await [Elapse (1 # 20)%Q; CanPlay] after_stream) = Ready /\
  exists h',
    apply_event Commit (await [Elapse (1 # 20)%Q; CanPlay] after_stream) = Returned h' /\
    transitionState h' = Transitioned /\
    html5Audio_getCurrentTime h' = 0%Q /\
    isPlaying h' = true /\
    activeSources (webAudio h') = [] /\
    option_map (@el_paused Q) (audioRef h') = Some false.
Proof.
  split; [reflexivity|]. split; [reflexivity|].
  destruct (handoff_sequence (await [Elapse (1 # 20)%Q; CanPlay] after_stream))
    as (h' & Hrun & Hstate & Hpos & _ & Hplaying & _).
  - reflexivity.
  - reflexivity.
  - destruct (Hplaying eq_refl) as (Hp & Hsources & _ & Hpaused).
    exists h'. split; [exact Hrun|]. split; [exact Hstate|].
    split; [exact Hpos|]. split; [exact Hp|]. split; [exact Hsources|].
    exact Hpaused.
Defined.

(** C10, at a concrete session.  In the transitioned, playing hook whose
    published time is 1/10, [stop] does reset the buffered engine to 0 and
    clears the play-state; the commit caused by [setIsPlaying(false)] runs
    the transition effect again, which seeks the engine to the published
    1/10; [play] then starts it there, not at the beginning.  Likewise
    [pause] at 3/20 leaves the position alone, the commit moves it to 1/10,
    and [play] resumes there. *)
Theorem stop_then_play_does_not_restart :
  exists h1 h2 h3 p0 p1 p2 p3 : hook Q,
    run_events (handoff ++ first_tick) after_stream = Returned playing_buffered /\
    isAudioTransitioned playing_buffered = true /\
    isPlaying playing_buffered = true /\
    (currentTime playing_buffered == 1 # 10)%Q /\
    stop playing_buffered = Returned h1 /\
    (html5Audio_getCurrentTime h1 == 0)%Q /\ isPlaying h1 = false /\
    apply_event Commit h1 = Returned h2 /\
    (html5Audio_getCurrentTime h2 == 1 # 10)%Q /\
    play h2 = h3 /\
    isPlaying h3 = true /\
    option_map (@el_paused Q) (audioRef h3) = Some false /\
    ~ (html5Audio_getCurrentTime h3 == 0)%Q /\
    apply_event (Elapse (1 # 20)%Q) playing_buffered = Returned p0 /\
    pause p0 = p1 /\
    (html5Audio_getCurrentTime p1 == 3 # 20)%Q /\
    apply_event Commit p1 = Returned p2 /\
    play p2 = p3 /\
    option_map (@el_paused Q) (audioRef p3) = Some false /\
    (html5Audio_getCurrentTime p3 == 1 # 10)%Q.
Proof.
  do 7 eexists.
  split; [vm_compute; reflexivity|].
  split; [reflexivity|]. split; [reflexivity|]. split; [reflexivity|].
  split; [vm_compute; reflexivity|].
  split; [reflexivity|]. split; [reflexivity|].
  split; [vm_compute; reflexivity|]. split; [reflexivity|].
  split; [vm_compute; reflexivity|].
  split; [reflexivity|]. split; [reflexivity|].
  split; [intros H; vm_compute in H; discriminate|].
  split; [vm_compute; reflexivity|].
  split; [vm_compute; reflexivity|]. split; [reflexivity|].
  split; [vm_compute; reflexivity|].
  split; [vm_compute; reflexivity|].
  split; reflexivity.
Qed.

(** Three calls of [stop] in a row after the stream, and two. *)
Lemma stop_is_idempotent_witness :
  (exists h', run_events (repeat (CallStop (num := Q)) 3) after_stream = Returned h' /\
              isPlaying h' = false) /\
  (exists h1 h2, stop after_stream = Returned h1 /\
                 stop h1 = Returned h2 /\ same_but_calls h1 h2).
Proof.
  split.
  - destruct (proj1 stop_is_idempotent after_stream 3) as (h' & Hrun & Hplaying).
    exists h'. split; [exact Hrun|]. apply Hplaying. lia.
  - eexists.
    destruct (proj1 (proj2 stop_is_idempotent) after_stream _
                ltac:(vm_compute; reflexivity)) as (h2 & Hstop & Hsame).
    exists h2. split; [vm_compute; reflexivity|]. split; [exact Hstop|exact Hsame].
Defined.



(** A whole session; [stop] in the transitioned hook; one loop iteration. *)
Lemma transitioned_once_and_terminal_witness :
  transitions_into (handoff ++ first_tick ++ [CallStop; Commit; CallPlay; Commit])
                   after_stream <= 1 /\
  (exists h',
     apply_event CallStop playing_buffered = Returned h' /\
     transitionState h' = Transitioned) /\
  match ingest_chunk {| ctx_currentTime := 0%Q; ctx_sampleRate := rate24000;
                        ctx_suspended := false |}
                     chunk8 (locals (streamAudio (quiet [chunk3]) fresh)) fresh with
  | Returned (_, h1) => transitionState h1 = transitionState fresh
  | Thrown _ => False
  end.
Proof.
  split; [|split].
  - apply (proj1 (@transitioned_once_and_terminal Q _)). reflexivity.
  - eexists. split; [vm_compute; reflexivity|].
    apply (proj1 (proj2 (@transitioned_once_and_terminal Q _))
             CallStop playing_buffered);
      [reflexivity|reflexivity|vm_compute; reflexivity].
  - destruct (ingest_chunk _ chunk8 _ fresh) as [[st1 h1]|e] eqn:Hrun.
    + exact (proj1 (proj2 (proj2 (@transitioned_once_and_terminal Q _)))
               _ _ _ _ _ _ Hrun).
    + vm_compute in Hrun. discriminate.
Defined.

(** ** Concrete sessions for the further properties *)

(** Eight bytes in chunks of 3 and 5, and in one chunk, the clock at 0 and
    at 5. *)
Lemma chunking_independence_witness :
  concat (allBuffers (locals (streamAudio (quiet [chunk3; chunk5]) fresh)))
  = concat (allBuffers (locals (streamAudio (quiet [chunk8]) fresh_at_5)))
  /\
  leftover (locals (streamAudio (quiet [chunk3; chunk5]) fresh))
  = leftover (locals (streamAudio (quiet [chunk8]) fresh_at_5)).
Proof.
  apply (chunking_independence (quiet [chunk3; chunk5]) (quiet [chunk8]) fresh fresh_at_5);
    vm_compute; reflexivity.
Defined.

(** Pause, tick and play while the chunks arrive. *)
Lemma undisturbed_session_is_complete_witness :
  undisturbed busy = true /\
  ingested (locals (streamAudio busy fresh)) = length (deliveries busy) /\
  map (@node_entry Q) (activeSources (webAudio (final (streamAudio busy fresh))))
  = scheduled (locals (streamAudio busy fresh)) /\
  isAudioPlaying (webAudio (final (streamAudio busy fresh))) = true.
Proof.
  split; [vm_compute; reflexivity|].
  apply (undisturbed_session_is_complete busy fresh).
  - vm_compute. discriminate.
  - vm_compute. reflexivity.
Defined.


(** A stream that closes at once. *)
Lemma nothing_to_ingest_witness :
  deliveries (quiet []) = [] /\
  raised (streamAudio (quiet []) fresh) = None /\
  isPlaying (final (streamAudio (quiet []) fresh)) = true /\
  duration (final (streamAudio (quiet []) fresh)) = duration fresh.
Proof.
  split; [reflexivity|].
  destruct (nothing_to_ingest (quiet []) fresh) as (Hr & _ & _ & _ & Hp & _ & Hd & _).
  - left. reflexivity.
  - split; [exact Hr|]. split; [exact Hp|exact Hd].
Defined.


(** A stream, then the resource becomes playable and React commits. *)
Lemma transitioned_only_when_ready_witness :
  isAudioTransitioned
    (life [Streams (quiet [chunk8]); Happens CanPlay; Happens Commit]
          (mounted rate24000 true 0%Q)) = true /\
  isAudioReady
    (life [Streams (quiet [chunk8]); Happens CanPlay; Happens Commit]
          (mounted rate24000 true 0%Q)) = true /\
  enableTransition
    (life [Streams (quiet [chunk8]); Happens CanPlay; Happens Commit]
          (mounted rate24000 true 0%Q)) = true.
Proof.
  split; [vm_compute; reflexivity|].
  apply (transitioned_only_when_ready
           [Streams (quiet [chunk8]); Happens CanPlay; Happens Commit]
           rate24000 true 0%Q).
  vm_compute. reflexivity.
Defined.

(** A stream, then [stop]. *)
Lemma dead_stream_holds_no_source_witness :
  isAudioPlaying
    (webAudio (life [Streams (quiet [chunk8]); Happens CallStop]
                    (mounted rate24000 true 0%Q))) = false /\
  activeSources
    (webAudio (life [Streams (quiet [chunk8]); Happens CallStop]
                    (mounted rate24000 true 0%Q))) = [].
Proof.
  split; [vm_compute; reflexivity|].
  apply (dead_stream_holds_no_source [Streams (quiet [chunk8]); Happens CallStop]
           rate24000 true 0%Q).
  vm_compute. reflexivity.
Defined.

(** The buffer one stream of eight bytes leaves. *)
Lemma stored_buffer_is_reported_witness :
  exists b,
    originalBuffer (webAudio (life [Streams (quiet [chunk8])] (mounted rate24000 true 0%Q)))
    = Some b /\
    ab_data b <> [] /\
    duration (life [Streams (quiet [chunk8])] (mounted rate24000 true 0%Q))
    = ab_duration b.
Proof.
  eexists. split; [vm_compute; reflexivity|].
  refine (let H := stored_buffer_is_reported [Streams (quiet [chunk8])]
                     rate24000 true 0%Q _ _ in
          conj (proj1 H) (proj1 (proj2 H))).
  vm_compute. reflexivity.
Defined.

(** A stream of eight bytes, then its handoff. *)
Lemma completed_session_transitions_witness :
  exists h' el' b,
    run_events [CanPlay; Commit] (final (streamAudio (quiet [chunk8]) fresh))
    = Returned h' /\
    transitionState h' = Transitioned /\
    audioRef h' = Some el' /\
    el_src el' = Some b /\
    originalBuffer (webAudio h') = Some b /\
    el_paused el' = false.
Proof.
  assert (forall el,
             audioRef (final (streamAudio (quiet [chunk8]) fresh)) = Some el ->
             exists h' el' b,
               run_events [CanPlay; Commit] (final (streamAudio (quiet [chunk8]) fresh))
               = Returned h' /\
               transitionState h' = Transitioned /\
               audioRef h' = Some el' /\
               el_src el' = Some b /\
               originalBuffer (webAudio h') = Some b /\
               el_paused el' = false) as H.
  { intros el Href.
    destruct (completed_session_transitions (quiet [chunk8]) fresh el)
      as (h' & el' & b & Hrun & Hstate & Href' & Hsrc & _ & Hbuf & _ & Hplaying & _).
    - reflexivity.
    - discriminate.
    - vm_compute. reflexivity.
    - vm_compute. reflexivity.
    - exact Href.
    - exists h', el', b. repeat split; try assumption.
      apply Hplaying. vm_compute. reflexivity. }
  eapply H. vm_compute. reflexivity.
Defined.

(** Pause and play while the stream of [after_stream] plays. *)
Lemma pause_play_round_trip_witness :
  isPlaying after_stream = true /\
  same_but_calls after_stream (play (pause after_stream)).
Proof.
  split; [vm_compute; reflexivity|].
  apply (pause_play_round_trip after_stream).
  - vm_compute. reflexivity.
  - intros _. eexists. split; vm_compute; reflexivity.
  - intros H. vm_compute in H. discriminate H.
Defined.


(** The context effect at 24000 Hz, then at 8000 Hz, on a page without a
    context. *)
Lemma context_is_created_once_witness :
  exists ctx,
    audioContext (webAudio (hook_of (context_effect true (num_of_Z 8000) false
                                       (context_effect true rate24000 true
                                          page_without_context))))
    = Some ctx /\
    ctx_sampleRate ctx = rate24000.
Proof.
  destruct (context_is_created_once page_without_context
              rate24000 (num_of_Z 8000) true false) as (ctx & _ & H2 & H3 & _).
  exists ctx. split; [exact H2|]. apply H3. vm_compute. reflexivity.
Defined.


(** Twelve bytes in chunks of 3, 5 and 4 give back the twelve bytes. *)
Lemma aligned_stream_round_trip_witness :
  leftover (locals (streamAudio (quiet [chunk3; chunk5; chunk4]) fresh)) = [] /\
  buffer_bytes (concat (allBuffers (locals (streamAudio (quiet [chunk3; chunk5; chunk4]) fresh))))
  = chunk3 ++ chunk5 ++ chunk4.
Proof.
  apply (aligned_stream_round_trip (quiet [chunk3; chunk5; chunk4]) fresh);
    vm_compute; reflexivity.
Defined.

(** The buffered engine paused at 1/10, rewound by ten seconds to 0, then
    played: it resumes at 1/10. *)
Lemma rewind_while_paused_is_lost_witness :
  (html5Audio_getCurrentTime (rewind (10 # 1)%Q paused_buffered) == 0)%Q /\
  exists h' el',
    run_events [CallRewind (10 # 1)%Q; CallPlay; Commit] paused_buffered = Returned h' /\
    audioRef h' = Some el' /\
    el_currentTime el' = (1 # 10)%Q.
Proof.
  assert (forall el,
             audioRef paused_buffered = Some el ->
             el_currentTime el = (1 # 10)%Q ->
             (html5Audio_getCurrentTime (rewind (10 # 1)%Q paused_buffered) == 0)%Q /\
             exists h' el',
               run_events [CallRewind (10 # 1)%Q; CallPlay; Commit] paused_buffered
               = Returned h' /\
               audioRef h' = Some el' /\
               el_currentTime el' = (1 # 10)%Q) as H.
  { intros el Href Hpos.
    destruct (rewind_while_paused_is_lost (10 # 1)%Q paused_buffered el
                ltac:(vm_compute; reflexivity) ltac:(vm_compute; reflexivity)
                ltac:(vm_compute; reflexivity) ltac:(vm_compute; reflexivity) Href)
      as (Hrew & h' & el' & Hrun & Href' & Htime & _).
    split.
    - rewrite Hrew, Hpos. reflexivity.
    - exists h', el'. split; [exact Hrun|]. split; [exact Href'|].
      rewrite Htime. vm_compute. reflexivity. }
  eapply H; vm_compute; reflexivity.
Defined.

(** Three commits after the resource of [after_stream] became playable. *)
Lemma handoff_runs_at_every_commit_witness :
  exists h',
    run_events (repeat (Commit (num := Q)) 3) ready_after_stream = Returned h' /\
    ready_calls (calls h') = 3 /\
    isAudioTransitioned h' = true.
Proof.
  destruct (handoff_runs_at_every_commit 2 ready_after_stream)
    as (h' & Hrun & Hcalls & Ht & _).
  - reflexivity.
  - vm_compute. reflexivity.
  - exists h'. split; [exact Hrun|]. split; [|exact Ht].
    rewrite Hcalls. vm_compute. reflexivity.
Defined.
